(** * csAnalyze: windowed aggregation and weighted localisation of RSSI scans

    A shallow embedding of [python-scripts/csAnalyze.py] and the properties
    of it that the design document states.

    Modelling conventions.
    - A Python [dict] keyed by addresses is a [gmap string _]; a [for k in d]
      loop is a [map_fold] over it (one fixed iteration order per dict, the
      same every time the dict is traversed).
    - Timestamps are finite numbers that the code only compares, truncates
      with [int()] and copies: they are rationals [Q] (every finite binary64
      value is one), compared exactly as Python compares an int with a float.
    - RSSI values and window/step sizes are Python ints: [Z].
    - The aggregates and positions are Python floats on which the code does
      arithmetic: IEEE binary64, Rocq's primitive [float], with [nan] for
      [float("NaN")].  [x ** 2] is the correctly rounded square [x * x];
      C's [pow], which Python calls, may differ from it in the last bit of
      an inexact result.
    - Exceptions are values of [exn]; a function that can raise returns a
      [result].  The [OverflowError] that Python raises when an int is too
      large for a float (line 113) or when [**] overflows (line 151) is not
      modelled: such values become infinities.  Neither happens for rssi
      values in the range [-127..127] of the data model ([rssiInRange]), and
      the statements that exclude every other failure assume that range. *)

From Stdlib Require Import ZArith QArith Qround Floats List Lia.
From stdpp Require Import base option list fin_maps gmap strings.

Set Default Proof Using "Type".

(* ================================================================== *)
(** * Python runtime: exceptions, numbers, [range] *)

Inductive exn : Type :=
  | KeyError (key : string)
  | IndexError
  | ValueError.

Inductive result (A : Type) : Type :=
  | Ok (a : A)
  | Raise (e : exn).
Arguments Ok {A} a.
Arguments Raise {A} e.

#[global] Instance result_ret : MRet result := @Ok.
#[global] Instance result_bind : MBind result :=
  λ A B f r, match r with Ok a => f a | Raise e => Raise e end.

(** [d[k]] on a dict: [KeyError(k)] when the key is absent. *)
Definition getitem {A} (d : gmap string A) (k : string) : result A :=
  match d !! k with
  | Some v => Ok v
  | None => Raise (KeyError k)
  end.

(** [l[i]] on a list with a non-negative index. *)
Definition getidx {A} (l : list A) (i : nat) : result A :=
  match l !! i with
  | Some v => Ok v
  | None => Raise IndexError
  end.

(** [if k not in d: d[k] = v]. *)
Definition ensureKey {A} (k : string) (v : A) (d : gmap string A) : gmap string A :=
  match d !! k with
  | Some _ => d
  | None => <[k := v]> d
  end.

(** [int(x)] on a finite float: truncation towards zero. *)
Definition pyint (x : Q) : Z := Z.quot (Qnum x) (Zpos (Qden x)).

(** [x < y] on numbers. *)
Definition Qltb (x y : Q) : bool := negb (Qle_bool y x).

(** Conversion of a Python int to a float in arithmetic with a float operand:
    round to nearest, ties to even.  An int of magnitude [2^1024] or more,
    for which Python raises [OverflowError], is converted to an infinity. *)
Definition float_of_int (z : Z) : float :=
  SF2Prim (binary_normalize prec emax z 0 false).

(** [len(range(start, stop, step))] for [step <> 0]. *)
Definition range_len (start stop step : Z) : Z :=
  if (0 <? step)%Z then
    if (start <? stop)%Z then ((stop - start - 1) / step + 1)%Z else 0%Z
  else
    if (stop <? start)%Z then ((start - stop - 1) / (- step) + 1)%Z else 0%Z.

(** Python 2 [range(start, stop, step)]: the list itself; [ValueError] for a
    zero step. *)
Definition pyrange (start stop step : Z) : result (list Z) :=
  if (step =? 0)%Z then Raise ValueError
  else Ok (map (λ i : nat, (start + Z.of_nat i * step)%Z)
               (seq 0 (Z.to_nat (range_len start stop step)))).

(** [l[-1] = f(l[-1])]. *)
Definition updLast {A} (f : A → A) (l : list A) : list A :=
  alter f (pred (length l)) l.

(* ================================================================== *)
(** * Data model *)

(** A record of a node's scan list: [{"address":_, "time":_, "rssi":_}]. *)
Record Scan : Type := mkScan {
  address : string;
  time : Q;
  rssi : Z
}.

(** An entry of the per-device index: [{"time":_, "rssi":_}]. *)
Record Entry : Type := mkEntry {
  entry_time : Q;
  entry_rssi : Z
}.

(** The parsed data: [data["scans"]], [data["startTimestamp"]],
    [data["endTimestamp"]]. *)
Record Data : Type := mkData {
  scans : gmap string (list Scan);
  startTimestamp : Q;
  endTimestamp : Q
}.

Record ScanIndex : Type := mkScanIndex {
  scansPerDev : gmap string (gmap string (list Entry));
  minRssi : Z;
  maxRssi : Z
}.

Record Frequency : Type := mkFrequency {
  numScansPerDev : gmap string (gmap string (list float));
  freq_startTimes : list Z
}.

Record AverageRssi : Type := mkAverageRssi {
  avgRssiPerDev : gmap string (gmap string (list float));
  avg_startTimes : list Z
}.

(** [nodeLocations[addr]]: [{"x":_, "y":_}]. *)
Record Location : Type := mkLocation {
  loc_x : float;
  loc_y : float
}.

(** [paths[dev]]: [{"x":pathX, "y":pathY}]. *)
Record Path : Type := mkPath {
  path_x : list float;
  path_y : list float
}.

Record Paths : Type := mkPaths {
  pathPerDevice : gmap string Path;
  path_startTimes : list Z
}.

Record Measurements : Type := mkMeasurements {
  tm_data : gmap string (gmap string (gmap string (list Z)));
  tm_startTimestamp : Q;
  tm_endTimestamp : Q
}.

(* ================================================================== *)
(** * getScansPerDevicePerNode *)

(** Body of the inner loop (lines 26-40) for one scan of node [nodeAddr]. *)
Definition indexScan (nodeAddr : string) (st : ScanIndex) (scan : Scan) : ScanIndex :=
  let devAddr := address scan in
  let timestamp := time scan in
  let rssi := rssi scan in
  let entry := mkEntry timestamp rssi in
  let spd := ensureKey devAddr ∅ (scansPerDev st) in
  let perNode := default ∅ (spd !! devAddr) in
  let perNode :=
    match perNode !! nodeAddr with
    | None => <[nodeAddr := [entry]]> perNode
    | Some l => <[nodeAddr := l ++ [entry]]> perNode
    end in
  let maxRssi := if (maxRssi st <? rssi)%Z then rssi else maxRssi st in
  let minRssi := if (rssi <? minRssi st)%Z then rssi else minRssi st in
  mkScanIndex (<[devAddr := perNode]> spd) minRssi maxRssi.

Definition getScansPerDevicePerNode (data : Data) : ScanIndex :=
  map_fold (λ nodeAddr l st, fold_left (indexScan nodeAddr) l st)
           (mkScanIndex ∅ 127 (-127)) (scans data).

(* ================================================================== *)
(** * Buckets *)

(** Line 61 and line 99:
    [range(int(startTimestamp), int(endTimestamp)-windowSize+1, stepSize)]. *)
Definition bucketStarts (data : Data) (windowSize stepSize : Z) : result (list Z) :=
  pyrange (pyint (startTimestamp data))
          (pyint (endTimestamp data) - windowSize + 1) stepSize.

(** Lines 74 and 112:
    [startTimes[tInd] <= timestamp < startTimes[tInd]+windowSize]. *)
Definition inWindow (startTimes : list Z) (tInd : nat) (windowSize : Z)
    (timestamp : Q) : bool :=
  Qle_bool (inject_Z (startTimes !!! tInd)) timestamp
  && Qltb timestamp (inject_Z (startTimes !!! tInd + windowSize)).

(* ================================================================== *)
(** * getFrequencyPerDevicePerNode *)

Definition fastNodes : list string :=
  ["E8:00:93:4E:7B:D9"; "F5:A7:4B:49:8C:7D"; "FE:04:85:F9:8F:E9"]%string.

(** Lines 72-75: the scan loop, run on the list whose last cell is the
    counter of the current bucket. *)
Definition countScans (startTimes : list Z) (windowSize : Z) (tInd : nat)
    (scans : list Entry) (cells : list float) : list float :=
  fold_left (λ cells scan,
      if inWindow startTimes tInd windowSize (entry_time scan)
      then updLast (λ c, c + 1)%float cells else cells)
    scans cells.

(** Lines 68-78: the body of the node loop for bucket [tInd]. *)
Definition freqNode (startTimes : list Z) (windowSize : Z) (tInd : nat)
    (nodeAddr : string) (scans : list Entry)
    (perNode : gmap string (list float)) : gmap string (list float) :=
  let cells :=
    match perNode !! nodeAddr with
    | None => [0%float]
    | Some l => l ++ [0%float]
    end in
  let cells := countScans startTimes windowSize tInd scans cells in
  let cells :=
    if bool_decide (nodeAddr ∈ fastNodes)
    then updLast (λ c, c / 6)%float cells else cells in
  <[nodeAddr := cells]> perNode.

(** Lines 66-78: [for tInd in range(1,len(startTimes))] around the node loop. *)
Definition freqDev (startTimes : list Z) (windowSize : Z)
    (nodes : gmap string (list Entry))
    (perNode : gmap string (list float)) : gmap string (list float) :=
  fold_left (λ perNode tInd,
      map_fold (freqNode startTimes windowSize tInd) perNode nodes)
    (seq 1 (length startTimes - 1)) perNode.

Definition getFrequencyPerDevicePerNode (data : Data) (windowSize stepSize : Z)
    : result Frequency :=
  let data2 := getScansPerDevicePerNode data in
  let scansPerDev := scansPerDev data2 in
  startTimes ← bucketStarts data windowSize stepSize;
  let numScans :=
    map_fold (λ devAddr nodes numScans,
        let numScans := ensureKey devAddr ∅ numScans in
        let perNode := default ∅ (numScans !! devAddr) in
        <[devAddr := freqDev startTimes windowSize nodes perNode]> numScans)
      ∅ scansPerDev in
  mret (mkFrequency numScans startTimes).

(* ================================================================== *)
(** * getAverageRssiPerDevicePerNode *)

(** Lines 107-114: [rssiSum] and [numScans] after the scan loop. *)
Definition sumInWindow (startTimes : list Z) (windowSize : Z) (tInd : nat)
    (scans : list Entry) : float * Z :=
  fold_left (λ '(rssiSum, numScans) scan,
      if inWindow startTimes tInd windowSize (entry_time scan)
      then ((rssiSum + float_of_int (entry_rssi scan))%float, (numScans + 1)%Z)
      else (rssiSum, numScans))
    scans (0%float, 0%Z).

(** Lines 107-116: the body of the node loop for bucket [tInd].  The store
    [avgRssi[devAddr][nodeAddr][tInd] = _] hits a key that line 104 created
    and an index below [len(startTimes)], so it cannot raise. *)
Definition avgNode (startTimes : list Z) (windowSize : Z) (tInd : nat)
    (nodeAddr : string) (scans : list Entry)
    (perNode : gmap string (list float)) : gmap string (list float) :=
  let '(rssiSum, numScans) := sumInWindow startTimes windowSize tInd scans in
  if (0 <? numScans)%Z
  then alter (λ l, <[tInd := (rssiSum / float_of_int numScans)%float]> l)
             nodeAddr perNode
  else perNode.

(** Lines 102-116 for one device. *)
Definition avgDev (startTimes : list Z) (windowSize : Z)
    (nodes : gmap string (list Entry)) : gmap string (list float) :=
  let perNode :=
    map_fold (λ nodeAddr _ perNode,
        <[nodeAddr := replicate (length startTimes) (-105)%float]> perNode)
      ∅ nodes in
  fold_left (λ perNode tInd,
      map_fold (avgNode startTimes windowSize tInd) perNode nodes)
    (seq 0 (length startTimes)) perNode.

Definition getAverageRssiPerDevicePerNode (data : Data) (windowSize stepSize : Z)
    : result AverageRssi :=
  let data2 := getScansPerDevicePerNode data in
  let scansPerDev := scansPerDev data2 in
  startTimes ← bucketStarts data windowSize stepSize;
  let avgRssi :=
    map_fold (λ devAddr nodes avgRssi,
        <[devAddr := avgDev startTimes windowSize nodes]> avgRssi)
      ∅ scansPerDev in
  mret (mkAverageRssi avgRssi startTimes).

(* ================================================================== *)
(** * getPathPerDevice *)

(** Lines 147-152: the first node loop of bucket [tInd], over the nodes of
    [numScans[dev]]; yields [weights] and [weightSum].  The weight
    [(avg + 105.0)**2] is the correctly rounded product. *)
Definition weighNodes (avgRssi : gmap string (gmap string (list float)))
    (dev : string) (tInd : nat) (nodes : gmap string (list float))
    : result (gmap string float * float) :=
  map_fold (λ nodeAddr _ acc,
      '(weights, weightSum) ← acc;
      perNode ← getitem avgRssi dev;
      l ← getitem perNode nodeAddr;
      a ← getidx l tInd;
      let w := ((a + 105) * (a + 105))%float in
      mret (<[nodeAddr := w]> weights, (weightSum + w)%float))
    (mret (∅, 0%float)) nodes.

(** Lines 164-167: the second node loop of bucket [tInd]. *)
Definition addWeighted (nodeLocations : gmap string Location)
    (weights : gmap string float) (weightSum : float) (tInd : nat)
    (nodes : gmap string (list float)) (path : Path) : result Path :=
  map_fold (λ nodeAddr _ acc,
      path ← acc;
      w ← getitem weights nodeAddr;
      let weight := (w / weightSum)%float in
      loc ← getitem nodeLocations nodeAddr;
      mret (mkPath
              (alter (λ v, v + weight * loc_x loc)%float tInd (path_x path))
              (alter (λ v, v + weight * loc_y loc)%float tInd (path_y path))))
    (mret path) nodes.

(** Lines 147-167: the body of the bucket loop. *)
Definition pathCell (avgRssi : gmap string (gmap string (list float)))
    (nodeLocations : gmap string Location) (dev : string)
    (nodes : gmap string (list float)) (path : Path) (tInd : nat) : result Path :=
  '(weights, weightSum) ← weighNodes avgRssi dev tInd nodes;
  if (weightSum <? 1)%float
  then mret (mkPath (<[tInd := nan]> (path_x path)) (<[tInd := nan]> (path_y path)))
  else addWeighted nodeLocations weights weightSum tInd nodes path.

(** Lines 142-167 for one device. *)
Definition pathDev (avgRssi : gmap string (gmap string (list float)))
    (nodeLocations : gmap string Location) (startTimes : list Z)
    (dev : string) (nodes : gmap string (list float)) : result Path :=
  let pathX := replicate (length startTimes) 0%float in
  let pathY := replicate (length startTimes) 0%float in
  fold_left (λ acc tInd,
      path ← acc; pathCell avgRssi nodeLocations dev nodes path tInd)
    (seq 0 (length startTimes)) (mret (mkPath pathX pathY)).

Definition getPathPerDevice (data : Data) (windowSize stepSize : Z)
    (nodeLocations : gmap string Location) : result Paths :=
  data2 ← getFrequencyPerDevicePerNode data windowSize stepSize;
  let numScans := numScansPerDev data2 in
  let startTimes := freq_startTimes data2 in
  data3 ← getAverageRssiPerDevicePerNode data windowSize stepSize;
  let avgRssi := avgRssiPerDev data3 in
  paths ← map_fold (λ dev nodes acc,
      paths ← acc;
      path ← pathDev avgRssi nodeLocations startTimes dev nodes;
      mret (<[dev := path]> paths))
    (mret ∅) numScans;
  mret (mkPaths paths startTimes).

(* ================================================================== *)
(** * getTimedMeasurements *)

Section TimedMeasurements.
(** [str(round(t,1))]: the text of a timestamp rounded to one decimal. *)
Variable strRound1 : Q → string.
(** [kwargs["start"]] and [kwargs["end"]], when given. *)
Variables (kwStart kwEnd : option Q).

(** Lines 191-194: does the entry survive both [continue] tests? *)
Definition accepted (entry : Scan) : bool :=
  negb (match kwStart with Some s => Qltb (time entry) s | None => false end)
  && negb (match kwEnd with Some e => Qltb e (time entry) | None => false end).

(** Lines 191-209: the body of the entry loop. *)
Definition timedEntry (node : string) (output : Measurements) (entry : Scan)
    : Measurements :=
  if match kwStart with Some s => Qltb (time entry) s | None => false end
  then output
  else if match kwEnd with Some e => Qltb e (time entry) | None => false end
  then output
  else
    let startTimestamp :=
      if Qltb (time entry) (tm_startTimestamp output)
         || Qeq_bool (tm_startTimestamp output) (-1)
      then time entry else tm_startTimestamp output in
    let endTimestamp :=
      if Qltb (tm_endTimestamp output) (time entry)
         || Qeq_bool (tm_endTimestamp output) (-1)
      then time entry else tm_endTimestamp output in
    let timeStamp := strRound1 (time entry) in
    let device := address entry in
    let data := ensureKey timeStamp ∅ (tm_data output) in
    let byNode := ensureKey node ∅ (default ∅ (data !! timeStamp)) in
    let byDev := ensureKey device [] (default ∅ (byNode !! node)) in
    let readings := default [] (byDev !! device) ++ [rssi entry] in
    mkMeasurements
      (<[timeStamp := <[node := <[device := readings]> byDev]> byNode]> data)
      startTimestamp endTimestamp.

(** Lines 189-209 for one dataset. *)
Definition timedDataset (output : Measurements) (d : Data) : Measurements :=
  map_fold (λ node l output, fold_left (timedEntry node) l output)
           output (scans d).

Definition getTimedMeasurements (data : list Data) : Measurements :=
  fold_left timedDataset data (mkMeasurements ∅ (-1) (-1)).
End TimedMeasurements.

(* ================================================================== *)
(** * The design document's formulas *)

(** The scans of a (device, node) list that fall in bucket [tInd]. *)
Definition scansInBucket (startTimes : list Z) (windowSize : Z) (tInd : nat)
    (scans : list Entry) : list Entry :=
  List.filter (λ e, inWindow startTimes tInd windowSize (entry_time e)) scans.

(** Arithmetic mean of the rssi values of a list of scans. *)
Definition meanRssi (scans : list Entry) : float :=
  (fold_left (λ s e, s + float_of_int (entry_rssi e))%float scans 0%float
   / float_of_int (Z.of_nat (length scans)))%float.

(** Average RSSI of bucket [tInd]: the mean, or the sentinel [-105.0]. *)
Definition avgRssiSpec (startTimes : list Z) (windowSize : Z)
    (scans : list Entry) (tInd : nat) : float :=
  match scansInBucket startTimes windowSize tInd scans with
  | [] => (-105)%float
  | inb => meanRssi inb
  end.

(** Frequency cell of bucket [tInd]: the count of scans in the bucket, as the
    float reached by adding [1.0] once per scan, divided by [6.0] for the
    fast nodes. *)
Definition freqSpec (startTimes : list Z) (windowSize : Z) (nodeAddr : string)
    (scans : list Entry) (tInd : nat) : float :=
  let c := fold_left (λ c _, c + 1)%float
             (scansInBucket startTimes windowSize tInd scans) 0%float in
  if bool_decide (nodeAddr ∈ fastNodes) then (c / 6)%float else c.

(** The bucket sequence as the design document words it, with [floor]:
    [startTimes[i] = floor(startTimestamp) + i*stepSize] for exactly the [i]
    with [startTimes[i] <= floor(endTimestamp) - windowSize]. *)
Definition bucketsFloorSpec (startTs endTs : Q) (windowSize stepSize : Z)
    (startTimes : list Z) : Prop :=
  ∀ i : nat,
    startTimes !! i =
      if decide (Qfloor startTs + Z.of_nat i * stepSize ≤ Qfloor endTs - windowSize)%Z
      then Some (Qfloor startTs + Z.of_nat i * stepSize)%Z else None.

(** The same with Python's [int()], which truncates towards zero. *)
Definition bucketsTruncSpec (startTs endTs : Q) (windowSize stepSize : Z)
    (startTimes : list Z) : Prop :=
  ∀ i : nat,
    startTimes !! i =
      if decide (pyint startTs + Z.of_nat i * stepSize ≤ pyint endTs - windowSize)%Z
      then Some (pyint startTs + Z.of_nat i * stepSize)%Z else None.

(** Every scan record of the dataset. *)
Definition scanOf (data : Data) (s : Scan) : Prop :=
  ∃ node l, scans data !! node = Some l ∧ s ∈ l.

(** The whole average-RSSI sequence of a (device, node) pair: one value per
    bucket. *)
Definition avgRssiSeq (startTimes : list Z) (windowSize : Z)
    (scans : list Entry) : list float :=
  map (avgRssiSpec startTimes windowSize scans) (seq 0 (length startTimes)).

(** The whole frequency sequence of a (device, node) pair: one value per
    bucket index from 1 on. *)
Definition freqSeq (startTimes : list Z) (windowSize : Z) (nodeAddr : string)
    (scans : list Entry) : list float :=
  map (freqSpec startTimes windowSize nodeAddr scans)
      (seq 1 (length startTimes - 1)).

#[global] Instance float_inhabited : Inhabited float := populate 0%float.

(** Weight of node [n] in bucket [i]: [w[n] = (avgRssi[n][i] + 105.0)^2]. *)
Definition weightSpec (avgPerNode : gmap string (list float)) (i : nat)
    (n : string) : float :=
  let a := default [] (avgPerNode !! n) !!! i in
  ((a + 105) * (a + 105))%float.

(** [weightSum]: the sum of [w[n]] over the nodes that have an entry for the
    device, added up from [0] in the iteration order of the node dict. *)
Definition weightSumSpec (avgPerNode : gmap string (list float)) (i : nat)
    (nodes : gmap string (list float)) : float :=
  map_fold (λ n _ s, s + weightSpec avgPerNode i n)%float 0%float nodes.

(** [nodeLocations[n].x] or [.y]; only read for nodes that have a location. *)
Definition coordOf (coord : Location → float)
    (nodeLocations : gmap string Location) (n : string) : float :=
  match nodeLocations !! n with
  | Some loc => coord loc
  | None => nan
  end.

(** The sum of [(w[n]/weightSum) * coordinate of n] over the nodes, added to
    [v0] in the iteration order of the node dict. *)
Definition weightedSum (coord : Location → float)
    (nodeLocations : gmap string Location)
    (avgPerNode : gmap string (list float)) (weightSum : float) (i : nat)
    (nodes : gmap string (list float)) (v0 : float) : float :=
  map_fold (λ n _ acc,
      acc + (weightSpec avgPerNode i n / weightSum)
            * coordOf coord nodeLocations n)%float
    v0 nodes.

(** One coordinate of the position of bucket [i]: [NaN] when
    [weightSum < 1.0], the weighted centroid otherwise. *)
Definition positionSpec (coord : Location → float)
    (nodeLocations : gmap string Location)
    (avgPerNode : gmap string (list float)) (i : nat)
    (nodes : gmap string (list float)) : float :=
  let weightSum := weightSumSpec avgPerNode i nodes in
  if (weightSum <? 1)%float then nan
  else weightedSum coord nodeLocations avgPerNode weightSum i nodes 0%float.

(** One whole coordinate list of a device: one position per bucket. *)
Definition positionSeq (coord : Location → float)
    (nodeLocations : gmap string Location)
    (avgPerNode : gmap string (list float)) (len : nat)
    (nodes : gmap string (list float)) : list float :=
  map (λ i, positionSpec coord nodeLocations avgPerNode i nodes) (seq 0 len).

(** The [weights] dict of bucket [i]. *)
Definition weightsSpec (avgPerNode : gmap string (list float)) (i : nat)
    (nodes : gmap string (list float)) : gmap string float :=
  map_imap (λ n _, Some (weightSpec avgPerNode i n)) nodes.

(** The number of entries stored for a node in a per-node dict of
    sequences; none when the node has no sequence. *)
Definition entryCount (perNode : gmap string (list float)) (node : string) : nat :=
  length (default [] (perNode !! node)).

(** The readings stored in [output["data"][k][node][device]]; none when one
    of the keys is missing. *)
Definition readingsAt (output : Measurements) (k node device : string) : list Z :=
  default [] (default ∅ (default ∅ (tm_data output !! k) !! node) !! device).

(** The rssi values, in order, of the accepted records of a scan list that
    belong to the group of rounded timestamp [k] and device [device]. *)
Definition selectedReadings (strRound1 : Q → string) (kwStart kwEnd : option Q)
    (k device : string) (l : list Scan) : list Z :=
  map rssi
    (List.filter (λ e, accepted kwStart kwEnd e
                       && bool_decide (strRound1 (time e) = k)
                       && bool_decide (address e = device)) l).

(** The readings that the group [k][node][device] should hold for a
    collection of datasets: those of each dataset in turn. *)
Definition expectedReadings (strRound1 : Q → string) (kwStart kwEnd : option Q)
    (data : list Data) (k node device : string) : list Z :=
  concat (map (λ d, selectedReadings strRound1 kwStart kwEnd k device
                      (default [] (scans d !! node))) data).

(** A record of one of the datasets that passes the time filter. *)
Definition acceptedRecord (kwStart kwEnd : option Q) (data : list Data)
    (e : Scan) : Prop :=
  ∃ d, d ∈ data ∧ scanOf d e ∧ accepted kwStart kwEnd e = true.

(** [lo] and [hi] are the least and the greatest time of the records in [S],
    or both the sentinel [-1] when [S] is empty. *)
Definition timeRangeOf (S : Scan → Prop) (lo hi : Q) : Prop :=
  (lo = (-1)%Q ∧ hi = (-1)%Q ∧ ∀ e, ¬ S e)
  ∨ ((∃ e, S e ∧ lo = time e) ∧ (∀ e, S e → (lo <= time e)%Q)
     ∧ (∃ e, S e ∧ hi = time e) ∧ (∀ e, S e → (time e <= hi)%Q)).

(** ** Intermediate states of the loops *)

(** What line 116 does to the sequence of one node. *)
Definition avgStore (startTimes : list Z) (windowSize : Z) (tInd : nat)
    (scans : list Entry) (l : list float) : list float :=
  let '(rssiSum, numScans) := sumInWindow startTimes windowSize tInd scans in
  if (0 <? numScans)%Z
  then <[tInd := (rssiSum / float_of_int numScans)%float]> l else l.

(** The average-RSSI sequence of one node after the first [j] buckets. *)
Definition avgPrefix (startTimes : list Z) (windowSize : Z) (j : nat)
    (scans : list Entry) : list float :=
  map (avgRssiSpec startTimes windowSize scans) (seq 0 j)
  ++ replicate (length startTimes - j) (-105)%float.

(** One coordinate list of a device after the first [j] buckets. *)
Definition pathPrefix (coord : Location → float)
    (nodeLocations : gmap string Location)
    (avgPerNode : gmap string (list float)) (len j : nat)
    (nodes : gmap string (list float)) : list float :=
  map (λ i, positionSpec coord nodeLocations avgPerNode i nodes) (seq 0 j)
  ++ replicate (len - j) 0%float.

(** ** Formulas for the scan index and the raw dataset *)

(** The [{"time":_, "rssi":_}] entries, in order, of the scans of one node's
    list whose address is [devAddr]. *)
Definition indexedEntries (devAddr : string) (l : list Scan) : list Entry :=
  map (λ s, mkEntry (time s) (rssi s))
      (List.filter (λ s, bool_decide (address s = devAddr)) l).

(** [scansPerDev[devAddr][nodeAddr]], when both keys are present. *)
Definition indexLookup (spd : gmap string (gmap string (list Entry)))
    (devAddr nodeAddr : string) : option (list Entry) :=
  spd !! devAddr ≫= λ perNode, perNode !! nodeAddr.

(** A list as a dict value that is only stored when it has an element. *)
Definition nonEmpty {A} (l : list A) : option (list A) :=
  match l with
  | [] => None
  | _ => Some l
  end.

(** [aggregate[devAddr][nodeAddr]] in one of the per-device, per-node
    outputs. *)
Definition seqLookup (agg : gmap string (gmap string (list float)))
    (devAddr nodeAddr : string) : option (list float) :=
  agg !! devAddr ≫= λ perNode, perNode !! nodeAddr.

(** The rssi values of the dataset lie in the range that the data model
    gives them. *)
Definition rssiInRange (data : Data) : Prop :=
  ∀ s, scanOf data s → (-127 ≤ rssi s ≤ 127)%Z.

(** [lo <= hi], and each of the two is the sentinel [-1] or the time of a
    record in [S]. *)
Definition timeStampsFrom (S : Scan → Prop) (lo hi : Q) : Prop :=
  (lo <= hi)%Q
  ∧ (lo = (-1)%Q ∨ ∃ e, S e ∧ lo = time e)
  ∧ (hi = (-1)%Q ∨ ∃ e, S e ∧ hi = time e).

(* ================================================================== *)
(** * Example datasets *)

(** One node [A], one device [D], one scan [{time:10, rssi:-60}], time range
    [0..20]. *)
Definition oneScanData : Data :=
  mkData {[ "A"%string := [mkScan "D" 10 (-60)] ]} 0 20.

(** Node [A] at the origin. *)
Definition originA : gmap string Location :=
  {[ "A"%string := mkLocation 0 0 ]}.

(** Nodes [A] at [(0,0)] and [B] at [(10,0)]. *)
Definition locationsAB : gmap string Location :=
  <[ "B"%string := mkLocation 10 0 ]> originA.

(** Two nodes, two devices, time range [0..60]. *)
Definition twoNodeData : Data :=
  mkData {[ "A"%string := [mkScan "D" 10 (-60); mkScan "D" 25 (-70);
                           mkScan "D" 26 (-50)];
            "B"%string := [mkScan "D" 11 (-80); mkScan "E" 30 (-40)] ]} 0 60.

(** A dataset whose time range starts at a negative, fractional time. *)
Definition negativeStartData : Data := mkData ∅ (-1 # 2) 20.

(** A scan that lies on the right edge of the first window, time range
    [0..40]. *)
Definition edgeScanData : Data :=
  mkData {[ "A"%string := [mkScan "D" 10 (-60)] ]} 0 40.


(** A record whose time is [-1], followed by one whose time is [5]. *)
Definition sentinelTimeData : Data :=
  mkData {[ "A"%string := [mkScan "D" (-1) (-60); mkScan "D" 5 (-70)] ]} (-1) 5.

(* ================================================================== *)
(** * Properties *)

(** ** Numbers and [range] *)

Lemma Qltb_lt x y : Qltb x y = true ↔ (x < y)%Q.
Proof.
  unfold Qltb. rewrite negb_true_iff. split.
  - intros H. apply Qnot_le_lt. intros Hle. apply Qle_bool_iff in Hle. congruence.
  - intros H. destruct (Qle_bool y x) eqn:E; [|done].
    apply Qle_bool_iff in E. exfalso. eapply Qlt_not_le; eauto.
Qed.

Lemma pyint_floor x : (0 <= x)%Q → pyint x = Qfloor x.
Proof.
  destruct x as [n d]. unfold Qle, pyint, Qfloor. simpl. intros H.
  apply Z.quot_div_nonneg; lia.
Qed.

Lemma range_len_pos start stop step (i : nat) :
  (0 < step)%Z →
  (i < Z.to_nat (range_len start stop step))%nat ↔ (start + Z.of_nat i * step < stop)%Z.
Proof.
  intros Hstep. unfold range_len.
  destruct (Z.ltb_spec 0 step); [|lia].
  destruct (Z.ltb_spec start stop).
  - pose proof (Z.div_pos (stop - start - 1) step ltac:(lia) ltac:(lia)).
    split; intros Hi.
    + assert (Z.of_nat i <= (stop - start - 1) / step)%Z by lia.
      assert (Z.of_nat i * step <= stop - start - 1)%Z; [|lia].
      etrans; [apply Z.mul_le_mono_nonneg_r; [lia|eassumption]|].
      rewrite Z.mul_comm. apply Z.mul_div_le. lia.
    + assert (Z.of_nat i <= (stop - start - 1) / step)%Z; [|lia].
      apply Z.div_le_lower_bound; lia.
  - split; [lia|]. intros. assert (0 <= Z.of_nat i * step)%Z by lia. lia.
Qed.

Lemma pyrange_Ok start stop step :
  step ≠ 0%Z → ∃ l, pyrange start stop step = Ok l.
Proof.
  intros Hs. unfold pyrange. destruct (Z.eqb_spec step 0); [done|eauto].
Qed.

Lemma pyrange_lookup start stop step l (i : nat) :
  (0 < step)%Z → pyrange start stop step = Ok l →
  l !! i = if decide (start + Z.of_nat i * step < stop)%Z
           then Some (start + Z.of_nat i * step)%Z else None.
Proof.
  intros Hstep. unfold pyrange. destruct (Z.eqb_spec step 0); [lia|].
  intros [= <-]. rewrite list_lookup_fmap.
  pose proof (range_len_pos start stop step i Hstep) as Hlen.
  destruct (decide _) as [Hlt|Hge].
  - rewrite lookup_seq_lt by (by apply Hlen). done.
  - rewrite lookup_seq_ge; [done|]. apply Nat.nlt_ge. by rewrite Hlen.
Qed.

Lemma bucketStarts_Ok data windowSize stepSize :
  stepSize ≠ 0%Z → ∃ startTimes, bucketStarts data windowSize stepSize = Ok startTimes.
Proof. apply pyrange_Ok. Qed.

Lemma bucketStarts_lookup data windowSize stepSize startTimes :
  (0 < stepSize)%Z →
  bucketStarts data windowSize stepSize = Ok startTimes →
  bucketsTruncSpec (startTimestamp data) (endTimestamp data)
                   windowSize stepSize startTimes.
Proof.
  intros Hstep Hb i. rewrite (pyrange_lookup _ _ _ _ i Hstep Hb).
  repeat destruct (decide _); try done; lia.
Qed.

Lemma bucketStarts_succ data windowSize stepSize startTimes (i : nat) s s' :
  (0 < stepSize)%Z →
  bucketStarts data windowSize stepSize = Ok startTimes →
  startTimes !! i = Some s → startTimes !! S i = Some s' →
  s' = (s + stepSize)%Z.
Proof.
  intros Hstep Hb. rewrite !(bucketStarts_lookup _ _ _ _ Hstep Hb).
  repeat destruct (decide _); intros; simplify_eq. lia.
Qed.

(** ** Windows and the scan loops *)

Lemma updLast_snoc {A} (f : A → A) l c : updLast f (l ++ [c]) = l ++ [f c].
Proof.
  unfold updLast. rewrite length_app. simpl.
  replace (pred (length l + 1)) with (length l + 0)%nat by lia.
  by rewrite alter_app_r.
Qed.

Lemma fold_left_filter {A B} (p : B → bool) (f : A → B → A) l a :
  fold_left (λ a x, if p x then f a x else a) l a = fold_left f (List.filter p l) a.
Proof.
  revert a. induction l as [|x l IH]; intros a; simpl; [done|].
  destruct (p x); simpl; apply IH.
Qed.

Lemma inWindow_iff startTimes (i : nat) windowSize s t :
  startTimes !! i = Some s →
  inWindow startTimes i windowSize t = true ↔
  (inject_Z s <= t)%Q ∧ (t < inject_Z (s + windowSize))%Q.
Proof.
  intros Hs. unfold inWindow. rewrite (list_lookup_total_correct _ _ _ Hs).
  by rewrite andb_true_iff, Qle_bool_iff, Qltb_lt.
Qed.

Lemma sumInWindow_spec startTimes windowSize tInd scans :
  sumInWindow startTimes windowSize tInd scans =
  (fold_left (λ s e, s + float_of_int (entry_rssi e))%float
     (scansInBucket startTimes windowSize tInd scans) 0%float,
   Z.of_nat (length (scansInBucket startTimes windowSize tInd scans))).
Proof.
  unfold sumInWindow, scansInBucket.
  assert (∀ l s n,
    fold_left (λ '(rssiSum, numScans) scan,
      if inWindow startTimes tInd windowSize (entry_time scan)
      then ((rssiSum + float_of_int (entry_rssi scan))%float, (numScans + 1)%Z)
      else (rssiSum, numScans)) l (s, n) =
    (fold_left (λ s e, s + float_of_int (entry_rssi e))%float
       (List.filter (λ e, inWindow startTimes tInd windowSize (entry_time e)) l) s,
     (n + Z.of_nat (length
       (List.filter (λ e, inWindow startTimes tInd windowSize (entry_time e)) l)))%Z))
    as Hgen.
  { induction l as [|e l IH]; intros s n; simpl; [f_equal; lia|].
    destruct (inWindow _ _ _ _); simpl; rewrite IH; f_equal; lia. }
  rewrite Hgen. f_equal.
Qed.

Lemma countScans_snoc startTimes windowSize tInd scans l c :
  countScans startTimes windowSize tInd scans (l ++ [c]) =
  l ++ [fold_left (λ c _, c + 1)%float
          (scansInBucket startTimes windowSize tInd scans) c].
Proof.
  unfold countScans, scansInBucket. revert c.
  induction scans as [|e scans IH]; intros c; simpl; [done|].
  destruct (inWindow _ _ _ _); simpl; [|apply IH].
  rewrite updLast_snoc. apply IH.
Qed.

(** ** Loops over dicts *)

Lemma map_fold_store {A B} (g : A → B) (m : gmap string A) :
  map_fold (λ k v acc, <[k := g v]> acc) ∅ m = g <$> m.
Proof.
  apply (map_fold_weak_ind (λ r m, r = g <$> m)).
  - by rewrite fmap_empty.
  - intros k v m' r _ ->. by rewrite fmap_insert.
Qed.

Lemma map_fold_ensure_store {A B} (h : A → gmap string B → gmap string B)
    (m : gmap string A) :
  map_fold (λ k v acc,
      let acc := ensureKey k ∅ acc in
      let cur := default ∅ (acc !! k) in
      <[k := h v cur]> acc) ∅ m
  = (λ v, h v ∅) <$> m.
Proof.
  apply (map_fold_weak_ind (λ r m, r = (λ v, h v ∅) <$> m)).
  - by rewrite fmap_empty.
  - intros k v m' r Hk ->. cbn zeta. unfold ensureKey.
    rewrite lookup_fmap, Hk. simpl.
    rewrite lookup_insert_eq. simpl.
    by rewrite insert_insert_eq, fmap_insert.
Qed.

(** ** getAverageRssiPerDevicePerNode *)

Lemma avgNode_fold_lookup startTimes windowSize tInd
    (nodes : gmap string (list Entry)) perNode node :
  map_fold (avgNode startTimes windowSize tInd) perNode nodes !! node =
  match nodes !! node with
  | Some scans => avgStore startTimes windowSize tInd scans <$> perNode !! node
  | None => perNode !! node
  end.
Proof.
  revert node.
  apply (map_fold_weak_ind (λ r m, ∀ node, r !! node =
    match m !! node with
    | Some scans => avgStore startTimes windowSize tInd scans <$> perNode !! node
    | None => perNode !! node
    end)).
  - intros node. by rewrite lookup_empty.
  - intros k scans m r Hk IH node. unfold avgNode, avgStore.
    destruct (sumInWindow _ _ _ scans) as [rssiSum numScans] eqn:Hsum.
    destruct (decide (k = node)) as [->|Hne].
    + rewrite lookup_insert_eq. rewrite Hsum.
      destruct (0 <? numScans)%Z.
      * rewrite lookup_alter_eq, IH, Hk. done.
      * rewrite IH, Hk. by destruct (perNode !! node).
    + rewrite lookup_insert_ne by done.
      destruct (0 <? numScans)%Z; [rewrite lookup_alter_ne by done|]; apply IH.
Qed.

Lemma avgStore_spec startTimes windowSize tInd scans l :
  l !! tInd = Some (-105)%float →
  avgStore startTimes windowSize tInd scans l =
  <[tInd := avgRssiSpec startTimes windowSize scans tInd]> l.
Proof.
  intros Hl. unfold avgStore, avgRssiSpec. rewrite sumInWindow_spec.
  destruct (scansInBucket _ _ _ _) as [|e inb] eqn:Hin.
  - simpl. by rewrite list_insert_id.
  - destruct (Z.ltb_spec 0 (Z.of_nat (length (e :: inb)))); [done|].
    simpl in *. lia.
Qed.

Lemma avgPrefix_step startTimes windowSize j scans :
  j < length startTimes →
  avgStore startTimes windowSize j scans (avgPrefix startTimes windowSize j scans)
  = avgPrefix startTimes windowSize (S j) scans.
Proof.
  intros Hj. unfold avgPrefix.
  assert (length (map (avgRssiSpec startTimes windowSize scans) (seq 0 j)) = j) as Hlen
    by by rewrite length_map, length_seq.
  replace (length startTimes - j) with (S (length startTimes - S j)) by lia.
  rewrite avgStore_spec.
  - rewrite seq_S, map_app, <- app_assoc. simpl.
    rewrite insert_app_r_alt by lia. by rewrite Hlen, Nat.sub_diag.
  - rewrite lookup_app_r by lia. rewrite Hlen, Nat.sub_diag. done.
Qed.

Lemma avgDev_spec startTimes windowSize (nodes : gmap string (list Entry)) :
  avgDev startTimes windowSize nodes = avgRssiSeq startTimes windowSize <$> nodes.
Proof.
  unfold avgDev. rewrite (map_fold_store (λ _, replicate (length startTimes) (-105)%float)).
  assert (∀ j, j ≤ length startTimes →
    fold_left (λ perNode tInd,
        map_fold (avgNode startTimes windowSize tInd) perNode nodes)
      (seq 0 j)
      ((λ _, replicate (length startTimes) (-105)%float) <$> nodes)
    = avgPrefix startTimes windowSize j <$> nodes) as Hinv.
  { induction j as [|j IH]; intros Hj.
    - simpl. apply map_fmap_ext. intros k scans _. unfold avgPrefix.
      by rewrite Nat.sub_0_r.
    - rewrite seq_S, fold_left_app, IH by lia. simpl.
      apply map_eq. intros node. rewrite avgNode_fold_lookup, !lookup_fmap.
      destruct (nodes !! node) as [scans|]; simpl; [|done].
      by rewrite avgPrefix_step by lia. }
  rewrite Hinv by done. apply map_fmap_ext. intros k scans _.
  unfold avgPrefix, avgRssiSeq. by rewrite Nat.sub_diag, app_nil_r.
Qed.

Lemma getAverageRssi_spec data windowSize stepSize startTimes :
  bucketStarts data windowSize stepSize = Ok startTimes →
  getAverageRssiPerDevicePerNode data windowSize stepSize =
  Ok (mkAverageRssi
        (avgDev startTimes windowSize
           <$> scansPerDev (getScansPerDevicePerNode data))
        startTimes).
Proof.
  intros Hb. unfold getAverageRssiPerDevicePerNode. rewrite Hb. simpl.
  unfold mret, result_ret. f_equal. f_equal.
  apply (map_fold_store (avgDev startTimes windowSize)).
Qed.

(** ** getFrequencyPerDevicePerNode *)

Lemma freqNode_fold_lookup startTimes windowSize tInd
    (nodes : gmap string (list Entry)) perNode node :
  map_fold (freqNode startTimes windowSize tInd) perNode nodes !! node =
  match nodes !! node with
  | Some scans =>
      Some (default [] (perNode !! node)
            ++ [freqSpec startTimes windowSize node scans tInd])
  | None => perNode !! node
  end.
Proof.
  revert node.
  apply (map_fold_weak_ind (λ r m, ∀ node, r !! node =
    match m !! node with
    | Some scans =>
        Some (default [] (perNode !! node)
              ++ [freqSpec startTimes windowSize node scans tInd])
    | None => perNode !! node
    end)).
  - intros node. by rewrite lookup_empty.
  - intros k scans m r Hk IH node. unfold freqNode.
    destruct (decide (k = node)) as [->|Hne].
    + rewrite !lookup_insert_eq, IH, Hk. f_equal.
      assert (match perNode !! node with
              | Some l => l ++ [0%float]
              | None => [0%float]
              end = default [] (perNode !! node) ++ [0%float]) as ->
        by by destruct (perNode !! node).
      rewrite countScans_snoc. unfold freqSpec.
      destruct (bool_decide _); [by rewrite updLast_snoc|done].
    + rewrite !lookup_insert_ne by done. apply IH.
Qed.

Lemma freqDev_prefix startTimes windowSize (nodes : gmap string (list Entry)) j node :
  fold_left (λ perNode tInd,
      map_fold (freqNode startTimes windowSize tInd) perNode nodes)
    (seq 1 j) ∅ !! node =
  match j with
  | O => None
  | S _ => (λ scans, map (freqSpec startTimes windowSize node scans) (seq 1 j))
             <$> nodes !! node
  end.
Proof.
  induction j as [|j IH].
  - simpl. by rewrite lookup_empty.
  - rewrite seq_S, fold_left_app. simpl fold_left.
    rewrite freqNode_fold_lookup, IH.
    destruct (nodes !! node) as [scans|] eqn:Hn; simpl.
    + rewrite map_app. simpl. by destruct j.
    + by destruct j.
Qed.

Lemma freqDev_lookup startTimes windowSize (nodes : gmap string (list Entry)) node :
  freqDev startTimes windowSize nodes ∅ !! node =
  if decide (length startTimes ≤ 1) then None
  else freqSeq startTimes windowSize node <$> nodes !! node.
Proof.
  unfold freqDev. rewrite freqDev_prefix. unfold freqSeq.
  destruct (decide _) as [Hle|Hgt].
  - by replace (length startTimes - 1) with 0 by lia.
  - destruct (length startTimes - 1) eqn:E; [lia|done].
Qed.

Lemma freqDev_empty startTimes windowSize (nodes : gmap string (list Entry)) :
  length startTimes ≤ 1 → freqDev startTimes windowSize nodes ∅ = ∅.
Proof.
  intros Hle. apply map_eq. intros node.
  rewrite freqDev_lookup, lookup_empty. by rewrite decide_True.
Qed.

Lemma freqDev_dom startTimes windowSize (nodes : gmap string (list Entry)) node :
  is_Some (freqDev startTimes windowSize nodes ∅ !! node) →
  is_Some (nodes !! node).
Proof.
  rewrite freqDev_lookup. destruct (decide _); [by intros []|].
  by rewrite fmap_is_Some.
Qed.

Lemma getFrequency_spec data windowSize stepSize startTimes :
  bucketStarts data windowSize stepSize = Ok startTimes →
  getFrequencyPerDevicePerNode data windowSize stepSize =
  Ok (mkFrequency
        ((λ nodes, freqDev startTimes windowSize nodes ∅)
           <$> scansPerDev (getScansPerDevicePerNode data))
        startTimes).
Proof.
  intros Hb. unfold getFrequencyPerDevicePerNode. rewrite Hb. simpl.
  unfold mret, result_ret. f_equal. f_equal.
  apply (map_fold_ensure_store (freqDev startTimes windowSize)).
Qed.

(** ** getPathPerDevice *)

Lemma weighNodes_spec avgRssi dev avgPerNode i (m : gmap string (list float)) :
  avgRssi !! dev = Some avgPerNode →
  (∀ n, is_Some (m !! n) → ∃ l, avgPerNode !! n = Some l ∧ i < length l) →
  weighNodes avgRssi dev i m =
  Ok (weightsSpec avgPerNode i m, weightSumSpec avgPerNode i m).
Proof.
  intros Hdev. unfold weighNodes, weightsSpec, weightSumSpec.
  induction m as [|k x m Hk Hfirst IH] using map_first_key_ind; intros Hm.
  - by rewrite !map_fold_empty, map_imap_empty.
  - rewrite !(map_fold_insert_first_key _ _ _ _ _ Hk Hfirst).
    rewrite IH; last first.
    { intros n Hn. apply Hm. rewrite lookup_insert_is_Some. destruct (decide (k = n)); auto. }
    destruct (Hm k) as (l & Hl & Hlen); [by rewrite lookup_insert_eq|].
    simpl. unfold getitem. rewrite Hdev. simpl. rewrite Hl. simpl.
    unfold getidx. destruct (lookup_lt_is_Some_2 l i Hlen) as [a Ha].
    rewrite Ha. simpl. unfold mret, result_ret.
    assert (weightSpec avgPerNode i k = ((a + 105) * (a + 105))%float) as Hw.
    { unfold weightSpec. rewrite Hl. simpl.
      by rewrite (list_lookup_total_correct _ _ _ Ha). }
    rewrite Hw. do 2 f_equal.
    rewrite map_imap_insert. by rewrite Hw.
Qed.

Lemma weightsSpec_lookup avgPerNode i (m : gmap string (list float)) n :
  is_Some (m !! n) →
  weightsSpec avgPerNode i m !! n = Some (weightSpec avgPerNode i n).
Proof.
  intros [x Hx]. unfold weightsSpec. by rewrite map_lookup_imap, Hx.
Qed.

Lemma addWeighted_result nodeLocations weights weightSum avgPerNode i
    (m : gmap string (list float)) path :
  (∀ n, is_Some (m !! n) → weights !! n = Some (weightSpec avgPerNode i n)) →
  match addWeighted nodeLocations weights weightSum i m path with
  | Ok p =>
      (∀ n, is_Some (m !! n) → is_Some (nodeLocations !! n)) ∧
      p = mkPath
            (alter (weightedSum loc_x nodeLocations avgPerNode weightSum i m)
                   i (path_x path))
            (alter (weightedSum loc_y nodeLocations avgPerNode weightSum i m)
                   i (path_y path))
  | Raise e =>
      ∃ n, e = KeyError n ∧ is_Some (m !! n) ∧ nodeLocations !! n = None
  end.
Proof.
  unfold addWeighted, weightedSum.
  induction m as [|k x m Hk Hfirst IH] using map_first_key_ind; intros Hw.
  - rewrite map_fold_empty. simpl. split.
    + intros n. rewrite lookup_empty. by intros [].
    + destruct path as [px py]. simpl. f_equal.
      * rewrite <- (list_alter_id (λ v, v) px i) at 1 by done.
        apply list_alter_ext; [|done]. intros. by rewrite map_fold_empty.
      * rewrite <- (list_alter_id (λ v, v) py i) at 1 by done.
        apply list_alter_ext; [|done]. intros. by rewrite map_fold_empty.
  - rewrite (map_fold_insert_first_key _ _ _ _ _ Hk Hfirst).
    assert (∀ n, is_Some (m !! n) → is_Some (<[k:=x]> m !! n)) as Hsub.
    { intros n Hn. rewrite lookup_insert_is_Some. destruct (decide (k = n)); auto. }
    specialize (IH (λ n Hn, Hw n (Hsub n Hn))).
    destruct (map_fold _ _ m) as [p|e].
    + destruct IH as [Hlocs ->]. cbn [mbind result_bind].
      unfold getitem. rewrite (Hw k) by by rewrite lookup_insert_eq.
      destruct (nodeLocations !! k) as [loc|] eqn:Hloc; cbn [path_x path_y].
      * split.
        { intros n. rewrite lookup_insert_is_Some.
          intros [<-|[_ Hn]]; [by rewrite Hloc|by apply Hlocs]. }
        unfold mret, result_ret. f_equal.
        -- rewrite list_alter_alter_eq. apply list_alter_ext; [|done].
           intros v _. simpl.
           rewrite (map_fold_insert_first_key _ _ _ _ _ Hk Hfirst).
           unfold coordOf. by rewrite Hloc.
        -- rewrite list_alter_alter_eq. apply list_alter_ext; [|done].
           intros v _. simpl.
           rewrite (map_fold_insert_first_key _ _ _ _ _ Hk Hfirst).
           unfold coordOf. by rewrite Hloc.
      * exists k. by rewrite lookup_insert_eq.
    + simpl. destruct IH as (n & -> & Hn & Hloc). exists n. auto.
Qed.

Lemma alter_insert_lookup {A} (f : A → A) (l : list A) i x :
  l !! i = Some x → alter f i l = <[i := f x]> l.
Proof.
  intros Hx. rewrite list_insert_alter. apply list_alter_ext; [|done].
  intros x' Hx'. congruence.
Qed.

Lemma pathCell_result avgRssi nodeLocations dev avgPerNode
    (nodes : gmap string (list float)) path i :
  avgRssi !! dev = Some avgPerNode →
  (∀ n, is_Some (nodes !! n) → ∃ l, avgPerNode !! n = Some l ∧ i < length l) →
  path_x path !! i = Some 0%float →
  path_y path !! i = Some 0%float →
  match pathCell avgRssi nodeLocations dev nodes path i with
  | Ok p =>
      p = mkPath
            (<[i := positionSpec loc_x nodeLocations avgPerNode i nodes]> (path_x path))
            (<[i := positionSpec loc_y nodeLocations avgPerNode i nodes]> (path_y path))
      ∧ ((weightSumSpec avgPerNode i nodes <? 1)%float = false →
         ∀ n, is_Some (nodes !! n) → is_Some (nodeLocations !! n))
  | Raise e =>
      (weightSumSpec avgPerNode i nodes <? 1)%float = false
      ∧ ∃ n, e = KeyError n ∧ is_Some (nodes !! n) ∧ nodeLocations !! n = None
  end.
Proof.
  intros Hdev Hnodes Hx Hy. unfold pathCell, positionSpec.
  rewrite (weighNodes_spec _ _ _ _ _ Hdev Hnodes). cbn [mbind result_bind].
  destruct (weightSumSpec avgPerNode i nodes <? 1)%float eqn:Hws.
  - split; [done|]. intros; discriminate.
  - pose proof (addWeighted_result nodeLocations (weightsSpec avgPerNode i nodes)
      (weightSumSpec avgPerNode i nodes) avgPerNode i nodes path
      (λ n Hn, weightsSpec_lookup avgPerNode i nodes n Hn)) as Hadd.
    destruct (addWeighted _ _ _ _ _ _) as [p|e].
    + destruct Hadd as [Hlocs ->]. split; [|done].
      by rewrite (alter_insert_lookup _ _ _ _ Hx), (alter_insert_lookup _ _ _ _ Hy).
    + done.
Qed.

Lemma pathPrefix_step coord nodeLocations avgPerNode len j
    (nodes : gmap string (list float)) :
  j < len →
  <[j := positionSpec coord nodeLocations avgPerNode j nodes]>
    (pathPrefix coord nodeLocations avgPerNode len j nodes)
  = pathPrefix coord nodeLocations avgPerNode len (S j) nodes.
Proof.
  intros Hj. unfold pathPrefix.
  replace (len - j) with (S (len - S j)) by lia.
  rewrite insert_app_r_alt by (rewrite length_map, length_seq; lia).
  rewrite length_map, length_seq, Nat.sub_diag, seq_S, map_app, <- app_assoc.
  done.
Qed.

Lemma pathPrefix_lookup coord nodeLocations avgPerNode len j
    (nodes : gmap string (list float)) :
  j < len →
  pathPrefix coord nodeLocations avgPerNode len j nodes !! j = Some 0%float.
Proof.
  intros Hj. unfold pathPrefix.
  rewrite lookup_app_r by (rewrite length_map, length_seq; lia).
  rewrite length_map, length_seq, Nat.sub_diag.
  replace (len - j) with (S (len - S j)) by lia. done.
Qed.

Lemma pathDev_prefix avgRssi nodeLocations (startTimes : list Z) dev avgPerNode
    (nodes : gmap string (list float)) j :
  avgRssi !! dev = Some avgPerNode →
  (∀ n, is_Some (nodes !! n) →
        ∃ l, avgPerNode !! n = Some l ∧ length l = length startTimes) →
  j ≤ length startTimes →
  match
    fold_left (λ acc tInd,
        path ← acc; pathCell avgRssi nodeLocations dev nodes path tInd)
      (seq 0 j)
      (mret (mkPath (replicate (length startTimes) 0%float)
                    (replicate (length startTimes) 0%float)))
  with
  | Ok p =>
      p = mkPath
            (pathPrefix loc_x nodeLocations avgPerNode (length startTimes) j nodes)
            (pathPrefix loc_y nodeLocations avgPerNode (length startTimes) j nodes)
      ∧ (∀ i, i < j → (weightSumSpec avgPerNode i nodes <? 1)%float = false →
              ∀ n, is_Some (nodes !! n) → is_Some (nodeLocations !! n))
  | Raise e =>
      ∃ i n, i < j ∧ (weightSumSpec avgPerNode i nodes <? 1)%float = false
             ∧ e = KeyError n ∧ is_Some (nodes !! n) ∧ nodeLocations !! n = None
  end.
Proof.
  intros Hdev Hnodes. induction j as [|j IH]; intros Hj.
  - simpl. split; [|intros; lia].
    unfold pathPrefix. simpl. by rewrite Nat.sub_0_r.
  - rewrite seq_S, fold_left_app. simpl fold_left.
    specialize (IH ltac:(lia)).
    destruct (fold_left _ (seq 0 j) _) as [p|e].
    + destruct IH as [-> Hlocs]. cbn [mbind result_bind].
      pose proof (pathCell_result avgRssi nodeLocations dev avgPerNode nodes
        (mkPath
           (pathPrefix loc_x nodeLocations avgPerNode (length startTimes) j nodes)
           (pathPrefix loc_y nodeLocations avgPerNode (length startTimes) j nodes))
        j Hdev) as Hcell.
      destruct (pathCell _ _ _ _ _ _) as [p|e].
      * destruct Hcell as [-> Hloc].
        { intros n Hn. destruct (Hnodes n Hn) as (l & Hl & Hlen).
          exists l. split; [done|lia]. }
        { by apply pathPrefix_lookup. }
        { by apply pathPrefix_lookup. }
        cbn [path_x path_y]. rewrite !pathPrefix_step by lia. split; [done|].
        intros i Hi Hws. destruct (decide (i = j)) as [->|Hne].
        -- by apply Hloc.
        -- apply (Hlocs i); [lia|done].
      * destruct Hcell as [Hws (n & -> & Hn & Hloc)].
        { intros n Hn. destruct (Hnodes n Hn) as (l & Hl & Hlen).
          exists l. split; [done|lia]. }
        { by apply pathPrefix_lookup. }
        { by apply pathPrefix_lookup. }
        exists j, n. repeat split; [lia|done..].
    + cbn [mbind result_bind]. destruct IH as (i & n & Hi & Hrest).
      exists i, n. split; [lia|done].
Qed.

(** The device loop of [getPathPerDevice], for any per-device computation. *)
Lemma pathLoop_result {A B} (g : string → A → result B) (m : gmap string A) :
  match map_fold (λ dev nodes acc,
          paths ← acc; path ← g dev nodes; mret (<[dev := path]> paths))
        (mret (∅ : gmap string B)) m
  with
  | Ok paths =>
      ∀ dev, match m !! dev with
             | Some nodes => ∃ p, g dev nodes = Ok p ∧ paths !! dev = Some p
             | None => paths !! dev = None
             end
  | Raise e => ∃ dev nodes, m !! dev = Some nodes ∧ g dev nodes = Raise e
  end.
Proof.
  apply (map_fold_weak_ind (λ (r : result (gmap string B)) m,
    match r with
    | Ok paths =>
        ∀ dev, match m !! dev with
               | Some nodes => ∃ p, g dev nodes = Ok p ∧ paths !! dev = Some p
               | None => paths !! dev = None
               end
    | Raise e => ∃ dev nodes, m !! dev = Some nodes ∧ g dev nodes = Raise e
    end)).
  - intros dev. by rewrite !lookup_empty.
  - intros k x m' r Hk IH. destruct r as [paths|e]; cbn [mbind result_bind].
    + destruct (g k x) as [p|e] eqn:Hg; cbn [mbind result_bind].
      * intros dev. destruct (decide (k = dev)) as [->|Hne].
        -- rewrite !lookup_insert_eq. eauto.
        -- rewrite !lookup_insert_ne by done. apply IH.
      * exists k, x. by rewrite lookup_insert_eq.
    + destruct IH as (dev & nodes & Hdev & Hg). exists dev, nodes.
      split; [|done]. rewrite lookup_insert_ne; [done|]. intros ->. congruence.
Qed.

Lemma avgRssiSeq_length startTimes windowSize scans :
  length (avgRssiSeq startTimes windowSize scans) = length startTimes.
Proof. unfold avgRssiSeq. by rewrite length_map, length_seq. Qed.

Lemma pathDev_result avgRssi nodeLocations startTimes windowSize dev
    (nodes : gmap string (list Entry)) :
  avgRssi !! dev = Some (avgDev startTimes windowSize nodes) →
  let freqNodes := freqDev startTimes windowSize nodes ∅ in
  let avgPerNode := avgDev startTimes windowSize nodes in
  match pathDev avgRssi nodeLocations startTimes dev freqNodes with
  | Ok p =>
      p = mkPath
            (positionSeq loc_x nodeLocations avgPerNode (length startTimes) freqNodes)
            (positionSeq loc_y nodeLocations avgPerNode (length startTimes) freqNodes)
      ∧ (∀ i, i < length startTimes →
              (weightSumSpec avgPerNode i freqNodes <? 1)%float = false →
              ∀ n, is_Some (freqNodes !! n) → is_Some (nodeLocations !! n))
  | Raise e =>
      ∃ i n, i < length startTimes
             ∧ (weightSumSpec avgPerNode i freqNodes <? 1)%float = false
             ∧ e = KeyError n ∧ is_Some (freqNodes !! n)
             ∧ nodeLocations !! n = None
  end.
Proof.
  intros Hdev freqNodes avgPerNode. unfold pathDev.
  pose proof (pathDev_prefix avgRssi nodeLocations startTimes dev avgPerNode
    freqNodes (length startTimes) Hdev) as Hpre.
  destruct (fold_left _ _ _) as [p|e].
  - destruct Hpre as [-> Hlocs]; [|done|].
    + intros n Hn. apply freqDev_dom in Hn as [scans Hscans].
      exists (avgRssiSeq startTimes windowSize scans). split.
      * unfold avgPerNode. by rewrite avgDev_spec, lookup_fmap, Hscans.
      * apply avgRssiSeq_length.
    + split; [|done]. unfold pathPrefix, positionSeq.
      by rewrite Nat.sub_diag, !app_nil_r.
  - apply Hpre; [|done].
    intros n Hn. apply freqDev_dom in Hn as [scans Hscans].
    exists (avgRssiSeq startTimes windowSize scans). split.
    + unfold avgPerNode. by rewrite avgDev_spec, lookup_fmap, Hscans.
    + apply avgRssiSeq_length.
Qed.

Lemma getPathPerDevice_result data windowSize stepSize nodeLocations startTimes :
  bucketStarts data windowSize stepSize = Ok startTimes →
  match getPathPerDevice data windowSize stepSize nodeLocations with
  | Ok r =>
      path_startTimes r = startTimes ∧
      ∀ dev,
        match scansPerDev (getScansPerDevicePerNode data) !! dev with
        | Some nodes =>
            let freqNodes := freqDev startTimes windowSize nodes ∅ in
            let avgPerNode := avgDev startTimes windowSize nodes in
            pathPerDevice r !! dev =
              Some (mkPath
                (positionSeq loc_x nodeLocations avgPerNode (length startTimes) freqNodes)
                (positionSeq loc_y nodeLocations avgPerNode (length startTimes) freqNodes))
            ∧ (∀ i, i < length startTimes →
                 (weightSumSpec avgPerNode i freqNodes <? 1)%float = false →
                 ∀ n, is_Some (freqNodes !! n) → is_Some (nodeLocations !! n))
        | None => pathPerDevice r !! dev = None
        end
  | Raise e =>
      ∃ dev nodes i n,
        scansPerDev (getScansPerDevicePerNode data) !! dev = Some nodes
        ∧ i < length startTimes
        ∧ (weightSumSpec (avgDev startTimes windowSize nodes) i
             (freqDev startTimes windowSize nodes ∅) <? 1)%float = false
        ∧ e = KeyError n
        ∧ is_Some (freqDev startTimes windowSize nodes ∅ !! n)
        ∧ nodeLocations !! n = None
  end.
Proof.
  intros Hb. unfold getPathPerDevice.
  rewrite (getFrequency_spec _ _ _ _ Hb), (getAverageRssi_spec _ _ _ _ Hb).
  cbn [mbind result_bind numScansPerDev freq_startTimes avgRssiPerDev].
  set (idx := scansPerDev (getScansPerDevicePerNode data)).
  set (avgRssi := avgDev startTimes windowSize <$> idx).
  pose proof (pathLoop_result (pathDev avgRssi nodeLocations startTimes)
    ((λ nodes, freqDev startTimes windowSize nodes ∅) <$> idx)) as Hloop.
  destruct (map_fold _ _ _) as [paths|e]; cbn [mbind result_bind].
  - split; [done|]. intros dev. specialize (Hloop dev).
    rewrite lookup_fmap in Hloop. cbn [pathPerDevice].
    destruct (idx !! dev) as [nodes|] eqn:Hdev; simpl in Hloop; [|done].
    destruct Hloop as (p & Hp & ->).
    assert (avgRssi !! dev = Some (avgDev startTimes windowSize nodes)) as Havg
      by (unfold avgRssi; by rewrite lookup_fmap, Hdev).
    pose proof (pathDev_result avgRssi nodeLocations startTimes windowSize
      dev nodes Havg) as Hres.
    cbv zeta in Hres. rewrite Hp in Hres. by destruct Hres as [-> Hlocs].
  - destruct Hloop as (dev & freqNodes & Hdev & He).
    rewrite lookup_fmap in Hdev.
    destruct (idx !! dev) as [nodes|] eqn:Hidx; simplify_eq/=.
    assert (avgRssi !! dev = Some (avgDev startTimes windowSize nodes)) as Havg
      by (unfold avgRssi; by rewrite lookup_fmap, Hidx).
    pose proof (pathDev_result avgRssi nodeLocations startTimes windowSize
      dev nodes Havg) as Hres.
    cbv zeta in Hres. rewrite He in Hres.
    destruct Hres as (i & n & Hi & Hws & He' & Hn & Hloc).
    exists dev, nodes, i, n. repeat split; assumption.
Qed.

(** ** getScansPerDevicePerNode: the running minimum and maximum *)

Lemma indexScan_min nodeAddr st s :
  minRssi (indexScan nodeAddr st s) = Z.min (minRssi st) (rssi s).
Proof. unfold indexScan. cbn [minRssi]. destruct (Z.ltb_spec (rssi s) (minRssi st)); lia. Qed.

Lemma indexScan_max nodeAddr st s :
  maxRssi (indexScan nodeAddr st s) = Z.max (maxRssi st) (rssi s).
Proof. unfold indexScan. cbn [maxRssi]. destruct (Z.ltb_spec (maxRssi st) (rssi s)); lia. Qed.

Lemma indexScans_bounds nodeAddr l st :
  let st' := fold_left (indexScan nodeAddr) l st in
  (minRssi st' ≤ minRssi st)%Z ∧ (maxRssi st ≤ maxRssi st')%Z
  ∧ (∀ s, s ∈ l → (minRssi st' ≤ rssi s ≤ maxRssi st')%Z)
  ∧ (l = [] → st' = st).
Proof.
  revert st. induction l as [|x l IH]; intros st; simpl.
  - split_and!; [lia|lia| |done]. intros s Hs. by apply elem_of_nil in Hs.
  - destruct (IH (indexScan nodeAddr st x)) as (Hmin & Hmax & Hall & _).
    rewrite indexScan_min in Hmin. rewrite indexScan_max in Hmax.
    split_and!; [lia|lia| |done].
    intros s Hs. apply elem_of_cons in Hs as [->|Hs]; [lia|]. by apply Hall.
Qed.

Lemma getScans_bounds (m : gmap string (list Scan)) :
  let st := map_fold (λ nodeAddr l st, fold_left (indexScan nodeAddr) l st)
                     (mkScanIndex ∅ 127 (-127)) m in
  (∀ node l s, m !! node = Some l → s ∈ l → (minRssi st ≤ rssi s ≤ maxRssi st)%Z)
  ∧ ((∀ node l, m !! node = Some l → l = []) →
     minRssi st = 127%Z ∧ maxRssi st = (-127)%Z).
Proof.
  apply (map_fold_weak_ind (λ st m,
    (∀ node l s, m !! node = Some l → s ∈ l → (minRssi st ≤ rssi s ≤ maxRssi st)%Z)
    ∧ ((∀ node l, m !! node = Some l → l = []) →
       minRssi st = 127%Z ∧ maxRssi st = (-127)%Z))).
  - split; [|done]. intros node l s. by rewrite lookup_empty.
  - intros k x m' r Hk [IHb IHe].
    destruct (indexScans_bounds k x r) as (Hmin & Hmax & Hall & Hnil).
    split.
    + intros node l s Hl Hs. destruct (decide (k = node)) as [->|Hne].
      * rewrite lookup_insert_eq in Hl. simplify_eq. by apply Hall.
      * rewrite lookup_insert_ne in Hl by done.
        specialize (IHb node l s Hl Hs). lia.
    + intros Hempty. rewrite Hnil.
      * apply IHe. intros node l Hl. apply (Hempty node).
        rewrite lookup_insert_ne; [done|]. intros ->. congruence.
      * apply (Hempty k). by rewrite lookup_insert_eq.
Qed.

(** ** Results on the scan index, the buckets and the aggregates *)

(** C8. For every dataset, [getScansPerDevicePerNode] returns [minRssi] and
    [maxRssi] with [minRssi <= r <= maxRssi] for every rssi value [r] of the
    dataset (hence [minRssi <= maxRssi] as soon as one scan exists), and
    the sentinels [minRssi = 127], [maxRssi = -127] when the dataset has no
    scan at all. *)
Theorem rssi_range_bounds (data : Data) :
  let index := getScansPerDevicePerNode data in
  (∀ s, scanOf data s → (minRssi index ≤ rssi s ≤ maxRssi index)%Z)
  ∧ ((∃ s, scanOf data s) → (minRssi index ≤ maxRssi index)%Z)
  ∧ ((∀ s, ¬ scanOf data s) →
     minRssi index = 127%Z ∧ maxRssi index = (-127)%Z).
Proof.
  intros index. destruct (getScans_bounds (scans data)) as [Hb He].
  fold (getScansPerDevicePerNode data) in Hb, He. fold index in Hb, He.
  split; [|split].
  - intros s (node & l & Hl & Hs). by apply (Hb node l).
  - intros (s & node & l & Hl & Hs). specialize (Hb node l s Hl Hs). lia.
  - intros Hnone. apply He. intros node l Hl.
    destruct l as [|s l]; [done|]. exfalso. apply (Hnone s).
    exists node, (s :: l). split; [done|]. apply elem_of_cons. by left.
Qed.

Lemma rssi_range_bounds_witness :
  (∀ s, scanOf twoNodeData s →
        (minRssi (getScansPerDevicePerNode twoNodeData) ≤ rssi s
         ≤ maxRssi (getScansPerDevicePerNode twoNodeData))%Z)
  ∧ ((∃ s, scanOf twoNodeData s) →
     (minRssi (getScansPerDevicePerNode twoNodeData)
      ≤ maxRssi (getScansPerDevicePerNode twoNodeData))%Z)
  ∧ ((∀ s, ¬ scanOf twoNodeData s) →
     minRssi (getScansPerDevicePerNode twoNodeData) = 127%Z
     ∧ maxRssi (getScansPerDevicePerNode twoNodeData) = (-127)%Z).
Proof. exact (rssi_range_bounds twoNodeData). Defined.

(** C7, as amended.  For every [startTimestamp], [endTimestamp],
    [windowSize] and [stepSize > 0] the bucket sequence is exactly
    [startTimes[i] = int(startTimestamp) + i*stepSize] for the [i] with
    [startTimes[i] <= int(endTimestamp) - windowSize], where [int] truncates
    towards zero; it is empty when no [i] satisfies this.  For timestamps
    that are not negative, [int] is [floor] and the sequence is the one the
    design document describes. *)
Theorem bucket_sequence_truncates (data : Data) (windowSize stepSize : Z) :
  (0 < stepSize)%Z →
  ∃ startTimes,
    bucketStarts data windowSize stepSize = Ok startTimes
    ∧ bucketsTruncSpec (startTimestamp data) (endTimestamp data)
        windowSize stepSize startTimes
    ∧ ((∀ i : nat, ¬ (pyint (startTimestamp data) + Z.of_nat i * stepSize
                       ≤ pyint (endTimestamp data) - windowSize)%Z) →
       startTimes = [])
    ∧ ((0 <= startTimestamp data)%Q → (0 <= endTimestamp data)%Q →
       bucketsFloorSpec (startTimestamp data) (endTimestamp data)
         windowSize stepSize startTimes).
Proof.
  intros Hstep.
  destruct (bucketStarts_Ok data windowSize stepSize) as [startTimes Hb]; [lia|].
  pose proof (bucketStarts_lookup _ _ _ _ Hstep Hb) as Hspec.
  exists startTimes. repeat split; [done..| |].
  - intros Hnone. specialize (Hspec 0%nat). rewrite decide_False in Hspec by apply Hnone.
    by destruct startTimes.
  - intros Hs He i. specialize (Hspec i).
    by rewrite <- !pyint_floor.
Qed.

Lemma bucket_sequence_truncates_witness :
  (0 < 20)%Z ∧
  ∃ startTimes,
    bucketStarts twoNodeData 20 20 = Ok startTimes
    ∧ bucketsTruncSpec 0 60 20 20 startTimes
    ∧ ((∀ i : nat, ¬ (pyint 0 + Z.of_nat i * 20 ≤ pyint 60 - 20)%Z) →
       startTimes = [])
    ∧ ((0 <= 0)%Q → (0 <= 60)%Q → bucketsFloorSpec 0 60 20 20 startTimes).
Proof. split; [lia|]. apply (bucket_sequence_truncates twoNodeData 20 20). lia. Defined.

(** C7 as stated fails for a negative fractional [startTimestamp]:
    [int(-0.5) = 0] but [floor(-0.5) = -1]. *)
Lemma bucket_sequence_floor_counterexample :
  ¬ ∃ startTimes,
      bucketStarts negativeStartData 20 20 = Ok startTimes
      ∧ bucketsFloorSpec (startTimestamp negativeStartData)
          (endTimestamp negativeStartData) 20 20 startTimes.
Proof.
  intros (startTimes & Hb & Hspec). vm_compute in Hb. injection Hb as <-.
  specialize (Hspec 0%nat). vm_compute in Hspec. discriminate.
Qed.

(** C6. For every dataset and every (device, node) pair of the scan index,
    [getAverageRssiPerDevicePerNode] outputs a sequence with one entry per
    bucket; entry [i] is the arithmetic mean of the rssi values of the scans
    that fall in bucket [i] when there is at least one, and the sentinel
    [-105.0] otherwise. *)
Theorem average_rssi_mean_or_sentinel (data : Data) (windowSize stepSize : Z)
    (dev node : string) (nodes : gmap string (list Entry)) (scans : list Entry) :
  stepSize ≠ 0%Z →
  scansPerDev (getScansPerDevicePerNode data) !! dev = Some nodes →
  nodes !! node = Some scans →
  ∃ r perNode avgs,
    getAverageRssiPerDevicePerNode data windowSize stepSize = Ok r
    ∧ bucketStarts data windowSize stepSize = Ok (avg_startTimes r)
    ∧ avgRssiPerDev r !! dev = Some perNode
    ∧ perNode !! node = Some avgs
    ∧ length avgs = length (avg_startTimes r)
    ∧ ∀ i, i < length (avg_startTimes r) →
        avgs !! i =
          Some (match scansInBucket (avg_startTimes r) windowSize i scans with
                | [] => (-105)%float
                | inb => meanRssi inb
                end).
Proof.
  intros Hstep Hdev Hnode.
  destruct (bucketStarts_Ok data windowSize stepSize Hstep) as [startTimes Hb].
  rewrite (getAverageRssi_spec _ _ _ _ Hb).
  eexists _, (avgDev startTimes windowSize nodes), (avgRssiSeq startTimes windowSize scans).
  split; [done|]. cbn [avgRssiPerDev avg_startTimes]. split_and!; [done| | | |].
  - by rewrite lookup_fmap, Hdev.
  - by rewrite avgDev_spec, lookup_fmap, Hnode.
  - apply avgRssiSeq_length.
  - intros i Hi. unfold avgRssiSeq. rewrite list_lookup_fmap, lookup_seq_lt by done.
    done.
Qed.

Lemma average_rssi_mean_or_sentinel_witness :
  ∃ r perNode avgs,
    getAverageRssiPerDevicePerNode twoNodeData 20 20 = Ok r
    ∧ bucketStarts twoNodeData 20 20 = Ok (avg_startTimes r)
    ∧ avgRssiPerDev r !! "D"%string = Some perNode
    ∧ perNode !! "A"%string = Some avgs
    ∧ length avgs = length (avg_startTimes r)
    ∧ ∀ i, i < length (avg_startTimes r) →
        avgs !! i =
          Some (match scansInBucket (avg_startTimes r) 20 i
                        [mkEntry 10 (-60); mkEntry 25 (-70); mkEntry 26 (-50)] with
                | [] => (-105)%float
                | inb => meanRssi inb
                end).
Proof.
  apply (average_rssi_mean_or_sentinel twoNodeData 20 20 "D" "A"
           {[ "A"%string := [mkEntry 10 (-60); mkEntry 25 (-70); mkEntry 26 (-50)];
              "B"%string := [mkEntry 11 (-80)] ]}).
  - lia.
  - vm_compute. reflexivity.
  - vm_compute. reflexivity.
Defined.

(** C3, as amended.  For every dataset with at least two buckets and every
    (device, node) pair of the scan index, the frequency operation skips
    bucket index 0: its sequence has exactly one entry fewer than the
    average-RSSI sequence (which has one entry per bucket), and its entry [k]
    is the count of bucket [k+1].  With at most one bucket the frequency
    output has no sequence at all for the pair. *)
Theorem frequency_skips_first_bucket (data : Data) (windowSize stepSize : Z)
    (dev node : string) (nodes : gmap string (list Entry)) (scans : list Entry) :
  stepSize ≠ 0%Z →
  scansPerDev (getScansPerDevicePerNode data) !! dev = Some nodes →
  nodes !! node = Some scans →
  ∃ fr ar freqNodes avgNodes avgs,
    getFrequencyPerDevicePerNode data windowSize stepSize = Ok fr
    ∧ getAverageRssiPerDevicePerNode data windowSize stepSize = Ok ar
    ∧ freq_startTimes fr = avg_startTimes ar
    ∧ numScansPerDev fr !! dev = Some freqNodes
    ∧ avgRssiPerDev ar !! dev = Some avgNodes
    ∧ avgNodes !! node = Some avgs
    ∧ length avgs = length (avg_startTimes ar)
    ∧ (2 ≤ length (avg_startTimes ar) →
       ∃ counts,
         freqNodes !! node = Some counts
         ∧ length counts + 1 = length avgs
         ∧ ∀ k, k < length counts →
             counts !! k =
               Some (freqSpec (freq_startTimes fr) windowSize node scans (S k)))
    ∧ (length (avg_startTimes ar) ≤ 1 → freqNodes !! node = None).
Proof.
  intros Hstep Hdev Hnode.
  destruct (bucketStarts_Ok data windowSize stepSize Hstep) as [startTimes Hb].
  rewrite (getFrequency_spec _ _ _ _ Hb), (getAverageRssi_spec _ _ _ _ Hb).
  eexists _, _, (freqDev startTimes windowSize nodes ∅),
    (avgDev startTimes windowSize nodes), (avgRssiSeq startTimes windowSize scans).
  split; [done|]. split; [done|].
  cbn [numScansPerDev freq_startTimes avgRssiPerDev avg_startTimes].
  split_and!; [done| | | | | |].
  - by rewrite lookup_fmap, Hdev.
  - by rewrite lookup_fmap, Hdev.
  - by rewrite avgDev_spec, lookup_fmap, Hnode.
  - apply avgRssiSeq_length.
  - intros Hlen. exists (freqSeq startTimes windowSize node scans).
    rewrite freqDev_lookup, decide_False, Hnode by lia.
    unfold freqSeq. rewrite length_map, length_seq, avgRssiSeq_length.
    split_and!; [done|lia|].
    intros k Hk. by rewrite list_lookup_fmap, lookup_seq_lt by done.
  - intros Hlen. by rewrite freqDev_lookup, decide_True.
Qed.

Lemma frequency_skips_first_bucket_witness :
  ∃ fr ar freqNodes avgNodes avgs,
    getFrequencyPerDevicePerNode twoNodeData 20 20 = Ok fr
    ∧ getAverageRssiPerDevicePerNode twoNodeData 20 20 = Ok ar
    ∧ freq_startTimes fr = avg_startTimes ar
    ∧ numScansPerDev fr !! "D"%string = Some freqNodes
    ∧ avgRssiPerDev ar !! "D"%string = Some avgNodes
    ∧ avgNodes !! "B"%string = Some avgs
    ∧ length avgs = length (avg_startTimes ar)
    ∧ (2 ≤ length (avg_startTimes ar) →
       ∃ counts,
         freqNodes !! "B"%string = Some counts
         ∧ length counts + 1 = length avgs
         ∧ ∀ k, k < length counts →
             counts !! k =
               Some (freqSpec (freq_startTimes fr) 20 "B" [mkEntry 11 (-80)] (S k)))
    ∧ (length (avg_startTimes ar) ≤ 1 → freqNodes !! "B"%string = None).
Proof.
  apply (frequency_skips_first_bucket twoNodeData 20 20 "D" "B"
           {[ "A"%string := [mkEntry 10 (-60); mkEntry 25 (-70); mkEntry 26 (-50)];
              "B"%string := [mkEntry 11 (-80)] ]}).
  - lia.
  - vm_compute. reflexivity.
  - vm_compute. reflexivity.
Defined.

(** C3 as stated fails when the bucket sequence is empty (window larger than
    the time range): the frequency output then has no entry for the pair and
    the average-RSSI sequence is empty, so neither has one entry fewer. *)
Lemma frequency_one_fewer_counterexample :
  ¬ ∃ fr ar freqNodes avgNodes,
      getFrequencyPerDevicePerNode oneScanData 30 20 = Ok fr
      ∧ getAverageRssiPerDevicePerNode oneScanData 30 20 = Ok ar
      ∧ numScansPerDev fr !! "D"%string = Some freqNodes
      ∧ avgRssiPerDev ar !! "D"%string = Some avgNodes
      ∧ entryCount freqNodes "A" + 1 = entryCount avgNodes "A".
Proof.
  intros (fr & ar & freqNodes & avgNodes & Hf & Ha & Hfn & Han & Hc).
  vm_compute in Hf. injection Hf as <-.
  vm_compute in Ha. injection Ha as <-.
  vm_compute in Hfn. injection Hfn as <-.
  vm_compute in Han. injection Han as <-.
  vm_compute in Hc. discriminate.
Qed.

(** C5, as amended.  For every bucket [i] of a bucket sequence starting at
    [s = startTimes[i]], the scans that the loops count in bucket [i] are
    exactly those with [s <= t < s + windowSize]: the average-RSSI loop (run
    for every bucket) and the frequency loop (run for the buckets from index
    1 on) compute their sums and counts from these scans alone.  A scan
    exactly at [s + windowSize] is not counted in bucket [i]; it is counted
    in bucket [i+1], when that exists, provided [stepSize <= windowSize].
    When [stepSize < windowSize] some scan time is counted in both bucket
    [i] and bucket [i+1]. *)
Theorem bucket_membership_half_open (data : Data) (windowSize stepSize : Z)
    (startTimes : list Z) (i : nat) (s : Z) :
  (0 < stepSize)%Z →
  bucketStarts data windowSize stepSize = Ok startTimes →
  startTimes !! i = Some s →
  (∀ scans e,
     e ∈ scansInBucket startTimes windowSize i scans ↔
     e ∈ scans ∧ (inject_Z s <= entry_time e)%Q
     ∧ (entry_time e < inject_Z (s + windowSize))%Q)
  ∧ (∀ scans,
       sumInWindow startTimes windowSize i scans =
       (fold_left (λ sum e, sum + float_of_int (entry_rssi e))%float
          (scansInBucket startTimes windowSize i scans) 0%float,
        Z.of_nat (length (scansInBucket startTimes windowSize i scans))))
  ∧ (∀ scans cells c,
       countScans startTimes windowSize i scans (cells ++ [c]) =
       cells ++ [fold_left (λ c _, c + 1)%float
                   (scansInBucket startTimes windowSize i scans) c])
  ∧ (∀ t, t == inject_Z (s + windowSize) →
       inWindow startTimes i windowSize t = false
       ∧ ((stepSize ≤ windowSize)%Z → is_Some (startTimes !! S i) →
          inWindow startTimes (S i) windowSize t = true))
  ∧ ((stepSize < windowSize)%Z → is_Some (startTimes !! S i) →
     ∃ t, inWindow startTimes i windowSize t = true
          ∧ inWindow startTimes (S i) windowSize t = true).
Proof.
  intros Hstep Hb Hs. split_and!.
  - intros scans e. unfold scansInBucket.
    rewrite list_elem_of_In, filter_In, <- list_elem_of_In.
    by rewrite (inWindow_iff _ _ _ _ _ Hs).
  - apply sumInWindow_spec.
  - intros. apply countScans_snoc.
  - intros t Ht. split.
    + destruct (inWindow startTimes i windowSize t) eqn:E; [|done].
      apply (inWindow_iff _ _ _ _ _ Hs) in E as [_ Hlt].
      rewrite Ht in Hlt. by apply Qlt_irrefl in Hlt.
    + intros Hle [s' Hs'].
      pose proof (bucketStarts_succ _ _ _ _ _ _ _ Hstep Hb Hs Hs') as ->.
      apply (inWindow_iff _ _ _ _ _ Hs'). rewrite Ht. split.
      * rewrite <- Zle_Qle. lia.
      * rewrite <- Zlt_Qlt. lia.
  - intros Hlt [s' Hs'].
    pose proof (bucketStarts_succ _ _ _ _ _ _ _ Hstep Hb Hs Hs') as ->.
    exists (inject_Z (s + stepSize)). split.
    + apply (inWindow_iff _ _ _ _ _ Hs). rewrite <- Zle_Qle, <- Zlt_Qlt. lia.
    + apply (inWindow_iff _ _ _ _ _ Hs'). rewrite <- Zle_Qle, <- Zlt_Qlt. lia.
Qed.

Lemma bucket_membership_half_open_witness :
  (0 < 20)%Z
  ∧ bucketStarts twoNodeData 20 20 = Ok [0; 20; 40]%Z
  ∧ [0; 20; 40]%Z !! 0 = Some 0%Z
  ∧ ∀ t, t == inject_Z (0 + 20) →
      inWindow [0; 20; 40]%Z 0 20 t = false
      ∧ ((20 ≤ 20)%Z → is_Some ([0; 20; 40]%Z !! 1) →
         inWindow [0; 20; 40]%Z 1 20 t = true).
Proof.
  split; [lia|]. split; [by vm_compute|]. split; [done|].
  apply (bucket_membership_half_open twoNodeData 20 20 [0; 20; 40]%Z 0 0%Z).
  - lia.
  - by vm_compute.
  - done.
Defined.

(** C5 as stated fails when [stepSize > windowSize]: with windows [[0,10)]
    and [[20,30)] a scan at time [10 = startTimes[0] + windowSize] is counted
    in no bucket, although bucket 1 exists. *)
Lemma boundary_scan_counterexample :
  bucketStarts edgeScanData 10 20 = Ok [0; 20]%Z
  ∧ 10 == inject_Z (0 + 10)
  ∧ is_Some ([0; 20]%Z !! 1)
  ∧ inWindow [0; 20]%Z 1 10 10 = false
  ∧ sumInWindow [0; 20]%Z 10 1 [mkEntry 10 (-60)] = (0%float, 0%Z)
  ∧ ∃ ar perNode,
      getAverageRssiPerDevicePerNode edgeScanData 10 20 = Ok ar
      ∧ avgRssiPerDev ar !! "D"%string = Some perNode
      ∧ perNode !! "A"%string = Some [(-105)%float; (-105)%float].
Proof.
  split_and!.
  - by vm_compute.
  - reflexivity.
  - by eexists.
  - by vm_compute.
  - by vm_compute.
  - eexists _, _. split_and!; by vm_compute.
Qed.

(** ** Results on the weighted localizer *)

Lemma getFrequency_Ok_inv data windowSize stepSize fr :
  getFrequencyPerDevicePerNode data windowSize stepSize = Ok fr →
  bucketStarts data windowSize stepSize = Ok (freq_startTimes fr)
  ∧ numScansPerDev fr =
      (λ nodes, freqDev (freq_startTimes fr) windowSize nodes ∅)
        <$> scansPerDev (getScansPerDevicePerNode data).
Proof.
  intros Hf. destruct (bucketStarts data windowSize stepSize) as [startTimes|e] eqn:Hb.
  - rewrite (getFrequency_spec _ _ _ _ Hb) in Hf. by injection Hf as <-.
  - unfold getFrequencyPerDevicePerNode in Hf. by rewrite Hb in Hf.
Qed.

Lemma getAverageRssi_Ok_inv data windowSize stepSize ar :
  getAverageRssiPerDevicePerNode data windowSize stepSize = Ok ar →
  bucketStarts data windowSize stepSize = Ok (avg_startTimes ar)
  ∧ avgRssiPerDev ar =
      avgDev (avg_startTimes ar) windowSize
        <$> scansPerDev (getScansPerDevicePerNode data).
Proof.
  intros Ha. destruct (bucketStarts data windowSize stepSize) as [startTimes|e] eqn:Hb.
  - rewrite (getAverageRssi_spec _ _ _ _ Hb) in Ha. by injection Ha as <-.
  - unfold getAverageRssiPerDevicePerNode in Ha. by rewrite Hb in Ha.
Qed.

Lemma positionSeq_length coord nodeLocations avgPerNode len
    (nodes : gmap string (list float)) :
  length (positionSeq coord nodeLocations avgPerNode len nodes) = len.
Proof. unfold positionSeq. by rewrite length_map, length_seq. Qed.

Lemma positionSeq_lookup coord nodeLocations avgPerNode len
    (nodes : gmap string (list float)) i :
  i < len →
  positionSeq coord nodeLocations avgPerNode len nodes !! i =
  Some (positionSpec coord nodeLocations avgPerNode i nodes).
Proof.
  intros Hi. unfold positionSeq. by rewrite list_lookup_fmap, lookup_seq_lt.
Qed.

Lemma positionSeq_empty coord nodeLocations avgPerNode len :
  positionSeq coord nodeLocations avgPerNode len ∅ = replicate len nan.
Proof.
  apply list_eq. intros i. destruct (decide (i < len)) as [Hi|Hi].
  - rewrite positionSeq_lookup by done.
    rewrite lookup_replicate_2 by done.
    unfold positionSpec, weightSumSpec. by rewrite map_fold_empty.
  - rewrite (lookup_ge_None_2 (positionSeq _ _ _ _ _))
      by (rewrite positionSeq_length; lia).
    by rewrite lookup_ge_None_2 by (rewrite length_replicate; lia).
Qed.

(** C10. For every dataset whose bucket sequence has at most one bucket,
    [getFrequencyPerDevicePerNode] maps every device to an empty node
    mapping; [getPathPerDevice], which takes the nodes of a device from the
    frequency output, therefore computes [weightSum = 0] and outputs
    [(NaN, NaN)] in every bucket of every device, whatever rssi values were
    recorded. *)
Theorem short_bucket_sequence_gives_nan (data : Data) (windowSize stepSize : Z)
    (nodeLocations : gmap string Location) (startTimes : list Z) :
  bucketStarts data windowSize stepSize = Ok startTimes →
  length startTimes ≤ 1 →
  ∃ fr pr,
    getFrequencyPerDevicePerNode data windowSize stepSize = Ok fr
    ∧ getPathPerDevice data windowSize stepSize nodeLocations = Ok pr
    ∧ ∀ dev,
        match scansPerDev (getScansPerDevicePerNode data) !! dev with
        | Some _ =>
            numScansPerDev fr !! dev = Some ∅
            ∧ (∀ avgRssi i, weighNodes avgRssi dev i ∅ = Ok (∅, 0%float))
            ∧ pathPerDevice pr !! dev =
                Some (mkPath (replicate (length startTimes) nan)
                             (replicate (length startTimes) nan))
        | None =>
            numScansPerDev fr !! dev = None ∧ pathPerDevice pr !! dev = None
        end.
Proof.
  intros Hb Hlen. rewrite (getFrequency_spec _ _ _ _ Hb).
  pose proof (getPathPerDevice_result data windowSize stepSize nodeLocations
    startTimes Hb) as Hpath.
  destruct (getPathPerDevice _ _ _ _) as [pr|e].
  - destruct Hpath as [_ Hpath]. eexists _, pr. split_and!; [done..|].
    intros dev. specialize (Hpath dev). cbn [numScansPerDev].
    rewrite lookup_fmap.
    destruct (scansPerDev (getScansPerDevicePerNode data) !! dev) as [nodes|];
      simpl; [|done].
    rewrite freqDev_empty in * by done. destruct Hpath as [Hpath _].
    rewrite !positionSeq_empty in Hpath. split_and!; [done| |done].
    intros. unfold weighNodes. by rewrite map_fold_empty.
  - destruct Hpath as (dev & nodes & i & n & _ & _ & _ & _ & Hn & _).
    rewrite freqDev_empty, lookup_empty in Hn by done. by destruct Hn.
Qed.

Lemma short_bucket_sequence_gives_nan_witness :
  bucketStarts oneScanData 20 20 = Ok [0%Z] ∧ length [0%Z] ≤ 1 ∧
  ∃ fr pr,
    getFrequencyPerDevicePerNode oneScanData 20 20 = Ok fr
    ∧ getPathPerDevice oneScanData 20 20 originA = Ok pr
    ∧ ∀ dev,
        match scansPerDev (getScansPerDevicePerNode oneScanData) !! dev with
        | Some _ =>
            numScansPerDev fr !! dev = Some ∅
            ∧ (∀ avgRssi i, weighNodes avgRssi dev i ∅ = Ok (∅, 0%float))
            ∧ pathPerDevice pr !! dev =
                Some (mkPath (replicate (length [0%Z]) nan)
                             (replicate (length [0%Z]) nan))
        | None =>
            numScansPerDev fr !! dev = None ∧ pathPerDevice pr !! dev = None
        end.
Proof.
  split; [by vm_compute|]. split; [simpl; lia|].
  apply (short_bucket_sequence_gives_nan oneScanData 20 20 originA [0%Z]).
  - by vm_compute.
  - simpl. lia.
Defined.

(** C1: what the code computes in the scenario.  There is one bucket and
    [avgRssi[D][A][0] = -60], but the frequency output gives device [D] no
    node, so the position of bucket 0 is [(NaN, NaN)], not [(0, 0)]. *)
Theorem single_scan_scenario :
  bucketStarts oneScanData 20 20 = Ok [0%Z]
  ∧ (∃ ar perNode,
       getAverageRssiPerDevicePerNode oneScanData 20 20 = Ok ar
       ∧ avgRssiPerDev ar !! "D"%string = Some perNode
       ∧ perNode !! "A"%string = Some [(-60)%float])
  ∧ weightSpec {[ "A"%string := [(-60)%float] ]} 0 "A" = 2025%float
  ∧ (∃ fr,
       getFrequencyPerDevicePerNode oneScanData 20 20 = Ok fr
       ∧ numScansPerDev fr !! "D"%string = Some ∅)
  ∧ (∃ pr,
       getPathPerDevice oneScanData 20 20 originA = Ok pr
       ∧ pathPerDevice pr !! "D"%string = Some (mkPath [nan] [nan])).
Proof.
  split_and!.
  - by vm_compute.
  - eexists _, _. split_and!; by vm_compute.
  - by vm_compute.
  - eexists. split_and!; by vm_compute.
  - eexists. split_and!; by vm_compute.
Qed.

(** What [getPathPerDevice] computes in general, when [nodeLocations] has
    an entry for every node of the dataset: for every device and bucket [i],
    the weights [(avgRssi[n][i] + 105.0)^2] of the nodes [n] that the
    frequency output lists for the device (lines 149 and 164), [NaN] when
    their sum is below [1.0], and the weighted sums of the node coordinates
    otherwise. *)
Lemma path_positions_over_frequency_nodes (data : Data) (windowSize stepSize : Z)
    (nodeLocations : gmap string Location) :
  stepSize ≠ 0%Z →
  (∀ dev nodes n,
     scansPerDev (getScansPerDevicePerNode data) !! dev = Some nodes →
     is_Some (nodes !! n) → is_Some (nodeLocations !! n)) →
  ∃ fr ar pr,
    getFrequencyPerDevicePerNode data windowSize stepSize = Ok fr
    ∧ getAverageRssiPerDevicePerNode data windowSize stepSize = Ok ar
    ∧ getPathPerDevice data windowSize stepSize nodeLocations = Ok pr
    ∧ path_startTimes pr = freq_startTimes fr
    ∧ ∀ dev freqNodes,
        numScansPerDev fr !! dev = Some freqNodes →
        ∃ avgPerNode path,
          avgRssiPerDev ar !! dev = Some avgPerNode
          ∧ pathPerDevice pr !! dev = Some path
          ∧ length (path_x path) = length (path_startTimes pr)
          ∧ length (path_y path) = length (path_startTimes pr)
          ∧ ∀ i, i < length (path_startTimes pr) →
              (∀ n, is_Some (freqNodes !! n) →
                 ∃ l a, avgPerNode !! n = Some l ∧ l !! i = Some a
                        ∧ weightSpec avgPerNode i n = ((a + 105) * (a + 105))%float)
              ∧ let weightSum := weightSumSpec avgPerNode i freqNodes in
                if (weightSum <? 1)%float
                then path_x path !! i = Some nan ∧ path_y path !! i = Some nan
                else path_x path !! i =
                       Some (weightedSum loc_x nodeLocations avgPerNode
                               weightSum i freqNodes 0%float)
                     ∧ path_y path !! i =
                       Some (weightedSum loc_y nodeLocations avgPerNode
                               weightSum i freqNodes 0%float).
Proof.
  intros Hstep Hlocs.
  destruct (bucketStarts_Ok data windowSize stepSize Hstep) as [startTimes Hb].
  rewrite (getFrequency_spec _ _ _ _ Hb), (getAverageRssi_spec _ _ _ _ Hb).
  pose proof (getPathPerDevice_result data windowSize stepSize nodeLocations
    startTimes Hb) as Hpath.
  destruct (getPathPerDevice _ _ _ _) as [pr|e]; last first.
  { destruct Hpath as (dev & nodes & i & n & Hdev & _ & _ & _ & Hn & Hnone).
    apply freqDev_dom in Hn. destruct (Hlocs dev nodes n Hdev Hn) as [loc Hloc].
    congruence. }
  destruct Hpath as [Hst Hpath]. eexists _, _, pr.
  split; [done|]. split; [done|]. split; [done|].
  cbn [numScansPerDev freq_startTimes avgRssiPerDev]. split; [done|].
  intros dev freqNodes Hfn. rewrite lookup_fmap in Hfn. specialize (Hpath dev).
  destruct (scansPerDev (getScansPerDevicePerNode data) !! dev) as [nodes|] eqn:Hdev;
    [|done].
  simpl in Hfn. injection Hfn as <-. rewrite Hst. destruct Hpath as [Hp _].
  eexists (avgDev startTimes windowSize nodes), _.
  split; [by rewrite lookup_fmap, Hdev|]. split; [exact Hp|].
  cbn [path_x path_y]. rewrite !positionSeq_length. split; [done|]. split; [done|].
  intros i Hi. split.
  - intros n Hn. apply freqDev_dom in Hn as [scans Hscans].
    assert (avgDev startTimes windowSize nodes !! n
            = Some (avgRssiSeq startTimes windowSize scans)) as Havg
      by by rewrite avgDev_spec, lookup_fmap, Hscans.
    destruct (lookup_lt_is_Some_2 (avgRssiSeq startTimes windowSize scans) i) as [a Ha].
    { by rewrite avgRssiSeq_length. }
    exists (avgRssiSeq startTimes windowSize scans), a. split_and!; [done..|].
    unfold weightSpec. rewrite Havg. simpl.
    by rewrite (list_lookup_total_correct _ _ _ Ha).
  - rewrite !positionSeq_lookup by done. unfold positionSpec.
    by destruct (weightSumSpec _ _ _ <? 1)%float.
Qed.

(** C2: what the code computes on the single-bucket dataset.  Node [A] has
    an entry for device [D] with [avgRssi[A][0] = -60], so the weights of the
    claim sum to [(45)^2 = 2025 >= 1.0] and its formula gives the position
    [(0, 0)] of node [A]; [getPathPerDevice] takes the nodes of the device
    from the frequency output, which lists none, and outputs [(NaN, NaN)]. *)
Theorem centroid_formula_single_bucket :
  ∃ ar avgPerNode fr pr path,
    getAverageRssiPerDevicePerNode oneScanData 20 20 = Ok ar
    ∧ avgRssiPerDev ar !! "D"%string = Some avgPerNode
    ∧ avgPerNode !! "A"%string = Some [(-60)%float]
    ∧ weightSumSpec avgPerNode 0 avgPerNode = 2025%float
    ∧ (weightSumSpec avgPerNode 0 avgPerNode <? 1)%float = false
    ∧ positionSpec loc_x originA avgPerNode 0 avgPerNode = 0%float
    ∧ positionSpec loc_y originA avgPerNode 0 avgPerNode = 0%float
    ∧ getFrequencyPerDevicePerNode oneScanData 20 20 = Ok fr
    ∧ numScansPerDev fr !! "D"%string = Some ∅
    ∧ getPathPerDevice oneScanData 20 20 originA = Ok pr
    ∧ pathPerDevice pr !! "D"%string = Some path
    ∧ path_x path !! 0 = Some nan
    ∧ path_y path !! 0 = Some nan.
Proof.
  eexists _, _, _, _, _. split_and!; by vm_compute.
Qed.




(** ** getTimedMeasurements *)

Lemma lookup_ensureKey {A} (k k' : string) (v : A) (d : gmap string A) :
  ensureKey k v d !! k' =
  if decide (k = k') then Some (default v (d !! k)) else d !! k'.
Proof.
  unfold ensureKey. destruct (decide (k = k')) as [<-|Hne].
  - destruct (d !! k) as [x|] eqn:E; simpl; [done|]. by rewrite lookup_insert_eq.
  - destruct (d !! k) as [x|] eqn:E; [done|]. by rewrite lookup_insert_ne.
Qed.

Lemma accepted_iff kwStart kwEnd e :
  accepted kwStart kwEnd e = true ↔
  (∀ s, kwStart = Some s → (s <= time e)%Q)
  ∧ (∀ t, kwEnd = Some t → (time e <= t)%Q).
Proof.
  unfold accepted. rewrite andb_true_iff, !negb_true_iff. split.
  - intros [Hs He]. split.
    + intros s ->. apply Qnot_lt_le. rewrite <- Qltb_lt. congruence.
    + intros t ->. apply Qnot_lt_le. rewrite <- Qltb_lt. congruence.
  - intros [Hs He]. split.
    + destruct kwStart as [s|]; [|done].
      destruct (Qltb (time e) s) eqn:E; [|done].
      apply Qltb_lt in E. exfalso. eapply Qlt_not_le; eauto.
    + destruct kwEnd as [t|]; [|done].
      destruct (Qltb t (time e)) eqn:E; [|done].
      apply Qltb_lt in E. exfalso. eapply Qlt_not_le; eauto.
Qed.

Section TimedMeasurementsFacts.
Variable strRound1 : Q → string.
Variables (kwStart kwEnd : option Q).

Lemma timedEntry_rejected node output e :
  accepted kwStart kwEnd e = false →
  timedEntry strRound1 kwStart kwEnd node output e = output.
Proof.
  unfold accepted, timedEntry. intros H.
  destruct (match kwStart with Some s => Qltb (time e) s | None => false end);
    [done|].
  destruct (match kwEnd with Some t => Qltb t (time e) | None => false end);
    [done|]. done.
Qed.

Lemma timedEntry_readings node output e k n d :
  readingsAt (timedEntry strRound1 kwStart kwEnd node output e) k n d =
  readingsAt output k n d
  ++ (if bool_decide (node = n)
      then selectedReadings strRound1 kwStart kwEnd k d [e] else []).
Proof.
  unfold selectedReadings. simpl.
  destruct (accepted kwStart kwEnd e) eqn:Hacc; last first.
  { rewrite timedEntry_rejected by done. simpl.
    destruct (bool_decide _); by rewrite app_nil_r. }
  unfold timedEntry, accepted in *. apply andb_true_iff in Hacc as [Hs He].
  apply negb_true_iff in Hs, He. rewrite Hs, He. clear Hs He.
  unfold readingsAt. cbn [tm_data andb].
  destruct (decide (strRound1 (time e) = k)) as [<-|Hk].
  - rewrite lookup_insert_eq. simpl. rewrite (bool_decide_eq_true_2 _ eq_refl).
    destruct (decide (node = n)) as [<-|Hn].
    + rewrite lookup_insert_eq. simpl. rewrite (bool_decide_eq_true_2 _ eq_refl).
      destruct (decide (address e = d)) as [<-|Hd].
      * rewrite lookup_insert_eq. simpl. rewrite (bool_decide_eq_true_2 _ eq_refl).
        simpl. f_equal.
        rewrite !lookup_ensureKey, !decide_True by done. reflexivity.
      * rewrite lookup_insert_ne by done.
        rewrite (bool_decide_eq_false_2 _ Hd). simpl. rewrite app_nil_r.
        rewrite !lookup_ensureKey. simpl.
        repeat case_decide; try congruence; reflexivity.
    + rewrite lookup_insert_ne by done.
      rewrite (bool_decide_eq_false_2 _ Hn), app_nil_r.
      rewrite !lookup_ensureKey. simpl.
      repeat case_decide; try congruence; reflexivity.
  - rewrite lookup_insert_ne by done.
    rewrite lookup_ensureKey, decide_False by done.
    rewrite (bool_decide_eq_false_2 _ Hk). simpl.
    destruct (bool_decide _); by rewrite app_nil_r.
Qed.

Lemma selectedReadings_app k d l1 l2 :
  selectedReadings strRound1 kwStart kwEnd k d (l1 ++ l2) =
  selectedReadings strRound1 kwStart kwEnd k d l1
  ++ selectedReadings strRound1 kwStart kwEnd k d l2.
Proof. unfold selectedReadings. by rewrite List.filter_app, map_app. Qed.

Lemma timedEntries_readings node l output k n d :
  readingsAt (fold_left (timedEntry strRound1 kwStart kwEnd node) l output) k n d =
  readingsAt output k n d
  ++ (if bool_decide (node = n)
      then selectedReadings strRound1 kwStart kwEnd k d l else []).
Proof.
  revert output. induction l as [|e l IH]; intros output.
  - simpl. destruct (bool_decide _); by rewrite app_nil_r.
  - simpl fold_left. rewrite IH, timedEntry_readings, <- app_assoc. f_equal.
    destruct (bool_decide _); [|done].
    by rewrite <- selectedReadings_app.
Qed.

Lemma timedDataset_readings output data k n d :
  readingsAt (timedDataset strRound1 kwStart kwEnd output data) k n d =
  readingsAt output k n d
  ++ selectedReadings strRound1 kwStart kwEnd k d (default [] (scans data !! n)).
Proof.
  unfold timedDataset.
  apply (map_fold_weak_ind (λ r m,
    readingsAt r k n d =
    readingsAt output k n d
    ++ selectedReadings strRound1 kwStart kwEnd k d (default [] (m !! n)))).
  - rewrite lookup_empty. simpl. by rewrite app_nil_r.
  - intros node l m r Hnode IH. rewrite timedEntries_readings, IH, <- app_assoc.
    f_equal. destruct (decide (node = n)) as [<-|Hn].
    + rewrite (bool_decide_eq_true_2 _ eq_refl), Hnode, lookup_insert_eq. done.
    + rewrite (bool_decide_eq_false_2 _ Hn), lookup_insert_ne, app_nil_r by done.
      done.
Qed.

Lemma getTimedMeasurements_readings data k n d :
  readingsAt (getTimedMeasurements strRound1 kwStart kwEnd data) k n d =
  expectedReadings strRound1 kwStart kwEnd data k n d.
Proof.
  unfold getTimedMeasurements, expectedReadings.
  assert (∀ output,
    readingsAt (fold_left (timedDataset strRound1 kwStart kwEnd) data output) k n d =
    readingsAt output k n d
    ++ concat (map (λ d0, selectedReadings strRound1 kwStart kwEnd k d
                           (default [] (scans d0 !! n))) data)) as Hgen.
  { induction data as [|d0 data IH]; intros output; simpl.
    - by rewrite app_nil_r.
    - by rewrite IH, timedDataset_readings, <- app_assoc. }
  rewrite Hgen. unfold readingsAt. simpl. by rewrite lookup_empty.
Qed.
End TimedMeasurementsFacts.

Lemma Qeq_bool_false x y : ¬ x == y → Qeq_bool x y = false.
Proof.
  intros Hne. destruct (Qeq_bool x y) eqn:E; [|done].
  by apply Qeq_bool_iff in E.
Qed.

Lemma timeRangeOf_ext (S S' : Scan → Prop) lo hi :
  (∀ e, S e ↔ S' e) → timeRangeOf S lo hi → timeRangeOf S' lo hi.
Proof.
  intros Hext [(Hlo & Hhi & Hnone)|((e1 & H1 & Hlo) & Hmin & (e2 & H2 & Hhi) & Hmax)].
  - left. split_and!; [done..|]. intros e He. apply (Hnone e). by apply Hext.
  - right. split_and!.
    + exists e1. split; [by apply Hext|done].
    + intros e He. apply Hmin. by apply Hext.
    + exists e2. split; [by apply Hext|done].
    + intros e He. apply Hmax. by apply Hext.
Qed.

Section TimedRange.
Variable strRound1 : Q → string.
Variables (kwStart kwEnd : option Q).

Lemma timedEntry_range node output e (S : Scan → Prop) :
  timeRangeOf S (tm_startTimestamp output) (tm_endTimestamp output) →
  (∀ x, S x → ¬ time x == -1) →
  let output' := timedEntry strRound1 kwStart kwEnd node output e in
  timeRangeOf (λ x, S x ∨ (x = e ∧ accepted kwStart kwEnd e = true))
    (tm_startTimestamp output') (tm_endTimestamp output').
Proof.
  intros Hrange HS output'. unfold output'. clear output'.
  destruct (accepted kwStart kwEnd e) eqn:Hacc; last first.
  { rewrite timedEntry_rejected by done.
    eapply timeRangeOf_ext; [|exact Hrange]. intros x. split; [auto|].
    by intros [?|[_ ?]]. }
  unfold timedEntry, accepted in *. apply andb_true_iff in Hacc as [Hs He].
  apply negb_true_iff in Hs, He. rewrite Hs, He. clear Hs He.
  cbn [tm_startTimestamp tm_endTimestamp]. right.
  destruct Hrange as [(Hlo & Hhi & Hnone)|((e1 & H1 & Hlo) & Hmin & (e2 & H2 & Hhi) & Hmax)].
  - rewrite Hlo, Hhi. replace (Qeq_bool (-1) (-1)) with true by done.
    rewrite !orb_true_r. split_and!.
    + exists e. auto.
    + intros x [Hx|[-> _]]; [by destruct (Hnone x)|apply Qle_refl].
    + exists e. auto.
    + intros x [Hx|[-> _]]; [by destruct (Hnone x)|apply Qle_refl].
  - rewrite (Qeq_bool_false (tm_startTimestamp output)),
      (Qeq_bool_false (tm_endTimestamp output)), !orb_false_r;
      [|rewrite Hhi; by apply HS|rewrite Hlo; by apply HS].
    split_and!.
    + destruct (Qltb (time e) (tm_startTimestamp output)); [exists e|exists e1]; auto.
    + intros x Hx.
      destruct (Qltb (time e) (tm_startTimestamp output)) eqn:E.
      * apply Qltb_lt in E. destruct Hx as [Hx|[-> _]]; [|apply Qle_refl].
        eapply Qle_trans; [apply Qlt_le_weak, E|by apply Hmin].
      * destruct Hx as [Hx|[-> _]]; [by apply Hmin|].
        apply Qnot_lt_le. rewrite <- Qltb_lt. congruence.
    + destruct (Qltb (tm_endTimestamp output) (time e)); [exists e|exists e2]; auto.
    + intros x Hx.
      destruct (Qltb (tm_endTimestamp output) (time e)) eqn:E.
      * apply Qltb_lt in E. destruct Hx as [Hx|[-> _]]; [|apply Qle_refl].
        eapply Qle_trans; [by apply Hmax|apply Qlt_le_weak, E].
      * destruct Hx as [Hx|[-> _]]; [by apply Hmax|].
        apply Qnot_lt_le. rewrite <- Qltb_lt. congruence.
Qed.

Lemma timedEntries_range node l output (S : Scan → Prop) :
  timeRangeOf S (tm_startTimestamp output) (tm_endTimestamp output) →
  (∀ x, S x → ¬ time x == -1) →
  (∀ x, x ∈ l → accepted kwStart kwEnd x = true → ¬ time x == -1) →
  let output' := fold_left (timedEntry strRound1 kwStart kwEnd node) l output in
  timeRangeOf (λ x, S x ∨ (x ∈ l ∧ accepted kwStart kwEnd x = true))
    (tm_startTimestamp output') (tm_endTimestamp output').
Proof.
  revert output S. induction l as [|e l IH]; intros output S Hrange HS Hl; simpl.
  - eapply timeRangeOf_ext; [|exact Hrange]. intros x. split; [auto|].
    intros [?|[Hx _]]; [done|]. by apply elem_of_nil in Hx.
  - eapply timeRangeOf_ext; last first.
    + apply (IH _ (λ x, S x ∨ (x = e ∧ accepted kwStart kwEnd e = true))).
      * by apply timedEntry_range.
      * intros x [Hx|[-> Hacc]]; [by apply HS|].
        apply Hl; [apply elem_of_cons; by left|done].
      * intros x Hx. apply Hl. apply elem_of_cons. by right.
    + intros x. rewrite elem_of_cons. split.
      * intros [[Hx|[-> Hacc]]|[Hx Hacc]]; auto.
      * intros [Hx|[[->|Hx] Hacc]]; auto.
Qed.

Lemma timedDataset_range output d (S : Scan → Prop) :
  timeRangeOf S (tm_startTimestamp output) (tm_endTimestamp output) →
  (∀ x, S x → ¬ time x == -1) →
  (∀ x, scanOf d x → accepted kwStart kwEnd x = true → ¬ time x == -1) →
  let output' := timedDataset strRound1 kwStart kwEnd output d in
  timeRangeOf (λ x, S x ∨ (scanOf d x ∧ accepted kwStart kwEnd x = true))
    (tm_startTimestamp output') (tm_endTimestamp output').
Proof.
  intros Hrange HS. unfold timedDataset, scanOf. cbv zeta.
  apply (map_fold_weak_ind (λ r (m : gmap string (list Scan)),
    (∀ x, (∃ node l, m !! node = Some l ∧ x ∈ l) →
          accepted kwStart kwEnd x = true → ¬ time x == -1) →
    timeRangeOf
      (λ x, S x ∨ ((∃ node l, m !! node = Some l ∧ x ∈ l)
                   ∧ accepted kwStart kwEnd x = true))
      (tm_startTimestamp r) (tm_endTimestamp r))).
  - intros _. eapply timeRangeOf_ext; [|exact Hrange]. intros x. split; [auto|].
    intros [?|[(node & l & Hl & _) _]]; [done|]. by rewrite lookup_empty in Hl.
  - intros node l m r Hnode IH Hm.
    assert (∀ x, (∃ node' l', m !! node' = Some l' ∧ x ∈ l') →
                 ∃ node' l', <[node := l]> m !! node' = Some l' ∧ x ∈ l') as Hsub.
    { intros x (node' & l' & Hl' & Hx). exists node', l'. split; [|done].
      rewrite lookup_insert_ne; [done|]. intros ->. congruence. }
    eapply timeRangeOf_ext; last first.
    + apply (timedEntries_range node l r
        (λ x, S x ∨ ((∃ node l, m !! node = Some l ∧ x ∈ l)
                     ∧ accepted kwStart kwEnd x = true))).
      * apply IH. intros x Hx. apply Hm. by apply Hsub.
      * intros x [Hx|[Hx Hacc]]; [by apply HS|]. apply Hm; [by apply Hsub|done].
      * intros x Hx. apply Hm. exists node, l. by rewrite lookup_insert_eq.
    + intros x. split.
      * intros [[Hx|[Hx Hacc]]|[Hx Hacc]]; [by left|right..].
        -- split; [by apply Hsub|done].
        -- split; [|done]. exists node, l. by rewrite lookup_insert_eq.
      * intros [Hx|[(node' & l' & Hl' & Hx) Hacc]]; [by left; left|].
        destruct (decide (node = node')) as [<-|Hne].
        -- rewrite lookup_insert_eq in Hl'. injection Hl' as <-. by right.
        -- rewrite lookup_insert_ne in Hl' by done. left. right.
           split; [|done]. by exists node', l'.
Qed.

Lemma getTimedMeasurements_range data :
  (∀ e, acceptedRecord kwStart kwEnd data e → ¬ time e == -1) →
  let output := getTimedMeasurements strRound1 kwStart kwEnd data in
  timeRangeOf (acceptedRecord kwStart kwEnd data)
    (tm_startTimestamp output) (tm_endTimestamp output).
Proof.
  intros Hdata. unfold getTimedMeasurements. cbv zeta.
  assert (∀ output (S : Scan → Prop),
    timeRangeOf S (tm_startTimestamp output) (tm_endTimestamp output) →
    (∀ x, S x → ¬ time x == -1) →
    (∀ e, acceptedRecord kwStart kwEnd data e → ¬ time e == -1) →
    let output' := fold_left (timedDataset strRound1 kwStart kwEnd) data output in
    timeRangeOf (λ x, S x ∨ acceptedRecord kwStart kwEnd data x)
      (tm_startTimestamp output') (tm_endTimestamp output')) as Hgen.
  { clear Hdata. induction data as [|d data IH]; intros output S Hrange HS Hdata; simpl.
    - eapply timeRangeOf_ext; [|exact Hrange]. intros x. split; [auto|].
      intros [?|(d & Hd & _)]; [done|]. by apply elem_of_nil in Hd.
    - eapply timeRangeOf_ext; last first.
      + apply (IH _ (λ x, S x ∨ (scanOf d x ∧ accepted kwStart kwEnd x = true))).
        * apply timedDataset_range; [done..|].
          intros x Hx Hacc. apply Hdata. exists d.
          split; [apply elem_of_cons; by left|done].
        * intros x [Hx|[Hx Hacc]]; [by apply HS|]. apply Hdata. exists d.
          split; [apply elem_of_cons; by left|done].
        * intros x (d' & Hd' & Hx). apply Hdata. exists d'.
          split; [apply elem_of_cons; by right|done].
      + intros x. unfold acceptedRecord. setoid_rewrite elem_of_cons. split.
        * intros [[Hx|[Hx Hacc]]|(d' & Hd' & Hx)]; [by left|right..].
          -- exists d. auto.
          -- exists d'. auto.
        * intros [Hx|(d' & [->|Hd'] & Hx)]; [by left; left|by left; right|].
          right. by exists d'. }
  eapply timeRangeOf_ext; last first.
  - apply (Hgen _ (λ _, False)); [|done|done].
    left. split; [done|]. split; [done|]. by intros ? [].
  - intros x. split; [by intros [[]|?]|auto].
Qed.
End TimedRange.

(** ** Results on the timestamp regrouper *)

(** C9, as amended.  For every collection of input datasets and optional
    [start]/[end] filters, [getTimedMeasurements] includes exactly the
    records with [start <= time <= end] (bounds inclusive; an absent bound
    imposes no constraint): each group [data[k][node][device]] holds the rssi
    values of the accepted records of that group, in order.  Provided no
    accepted record has the time [-1], it returns [startTimestamp] and
    [endTimestamp] equal to the least and the greatest accepted record time,
    and both equal to the sentinel [-1] when no record passes the filter. *)
Theorem timed_measurements_filter_and_range (strRound1 : Q → string)
    (kwStart kwEnd : option Q) (data : list Data) :
  let output := getTimedMeasurements strRound1 kwStart kwEnd data in
  (∀ e, accepted kwStart kwEnd e = true ↔
        (∀ s, kwStart = Some s → (s <= time e)%Q)
        ∧ (∀ t, kwEnd = Some t → (time e <= t)%Q))
  ∧ (∀ k node device,
       readingsAt output k node device =
       expectedReadings strRound1 kwStart kwEnd data k node device)
  ∧ ((∀ e, acceptedRecord kwStart kwEnd data e → ¬ time e == -1) →
     timeRangeOf (acceptedRecord kwStart kwEnd data)
       (tm_startTimestamp output) (tm_endTimestamp output)).
Proof.
  intros output. split_and!.
  - apply accepted_iff.
  - apply getTimedMeasurements_readings.
  - apply getTimedMeasurements_range.
Qed.

Lemma timed_measurements_filter_and_range_witness :
  (∀ e, accepted (Some 0%Q) (Some 26%Q) e = true ↔
        (∀ s, Some 0%Q = Some s → (s <= time e)%Q)
        ∧ (∀ t, Some 26%Q = Some t → (time e <= t)%Q))
  ∧ (∀ k node device,
       readingsAt
         (getTimedMeasurements (λ _, "t"%string) (Some 0%Q) (Some 26%Q)
            [twoNodeData; oneScanData]) k node device =
       expectedReadings (λ _, "t"%string) (Some 0%Q) (Some 26%Q)
         [twoNodeData; oneScanData] k node device)
  ∧ timeRangeOf (acceptedRecord (Some 0%Q) (Some 26%Q) [twoNodeData; oneScanData])
      (tm_startTimestamp
         (getTimedMeasurements (λ _, "t"%string) (Some 0%Q) (Some 26%Q)
            [twoNodeData; oneScanData]))
      (tm_endTimestamp
         (getTimedMeasurements (λ _, "t"%string) (Some 0%Q) (Some 26%Q)
            [twoNodeData; oneScanData])).
Proof.
  destruct (timed_measurements_filter_and_range (λ _, "t"%string)
              (Some 0%Q) (Some 26%Q) [twoNodeData; oneScanData])
    as (Hfilter & Hreadings & Hrange).
  split; [exact Hfilter|]. split; [exact Hreadings|]. apply Hrange.
  intros e (d & _ & _ & Hacc) Heq.
  apply Hfilter in Hacc as [Hs _]. specialize (Hs 0%Q eq_refl).
  rewrite Heq in Hs. by vm_compute in Hs.
Defined.

(** C9 as stated fails when an accepted record has the time [-1], the value
    that also marks "no timestamp yet": after the records with times [-1] and
    [5] the returned [startTimestamp] is [5], not the least accepted time. *)
Lemma timed_measurements_sentinel_counterexample :
  acceptedRecord None None [sentinelTimeData] (mkScan "D" (-1) (-60))
  ∧ tm_startTimestamp
      (getTimedMeasurements (λ _, "t"%string) None None [sentinelTimeData]) = 5%Q
  ∧ ¬ (tm_startTimestamp
         (getTimedMeasurements (λ _, "t"%string) None None [sentinelTimeData])
       <= time (mkScan "D" (-1) (-60)))%Q.
Proof.
  split_and!.
  - exists sentinelTimeData. split_and!.
    + apply elem_of_cons. by left.
    + exists "A"%string, [mkScan "D" (-1) (-60); mkScan "D" 5 (-70)].
      split; [by vm_compute|]. apply elem_of_cons. by left.
    + done.
  - by vm_compute.
  - by vm_compute.
Qed.

(* ================================================================== *)
(** * Further properties *)

(** ** The scan index *)

Lemma indexScan_lookup nodeAddr st s d n :
  indexLookup (scansPerDev (indexScan nodeAddr st s)) d n =
  if decide (address s = d ∧ nodeAddr = n)
  then Some (default [] (indexLookup (scansPerDev st) d n)
             ++ [mkEntry (time s) (rssi s)])
  else indexLookup (scansPerDev st) d n.
Proof.
  unfold indexScan, indexLookup. cbn [scansPerDev].
  set (spd := scansPerDev st).
  assert (default ∅ (ensureKey (address s) ∅ spd !! address s)
          = default ∅ (spd !! address s)) as Hper
    by (by rewrite lookup_ensureKey, decide_True).
  rewrite Hper. clear Hper.
  set (perNode := default ∅ (spd !! address s)).
  assert (match perNode !! nodeAddr with
          | Some l => <[nodeAddr := l ++ [mkEntry (time s) (rssi s)]]> perNode
          | None => <[nodeAddr := [mkEntry (time s) (rssi s)]]> perNode
          end
          = <[nodeAddr := default [] (perNode !! nodeAddr)
                          ++ [mkEntry (time s) (rssi s)]]> perNode) as ->
    by by destruct (perNode !! nodeAddr).
  assert (∀ n', perNode !! n' = spd !! address s ≫= λ pn, pn !! n') as Hpn.
  { intros n'. unfold perNode. destruct (spd !! address s); [done|].
    simpl. by rewrite lookup_empty. }
  destruct (decide (address s = d)) as [<-|Hd].
  - rewrite lookup_insert_eq. simpl.
    destruct (decide (nodeAddr = n)) as [<-|Hn].
    + rewrite lookup_insert_eq, decide_True by done. by rewrite Hpn.
    + rewrite lookup_insert_ne by done. rewrite decide_False by tauto. apply Hpn.
  - rewrite lookup_insert_ne by done.
    rewrite lookup_ensureKey, decide_False by done.
    by rewrite decide_False by tauto.
Qed.

Lemma indexedEntries_app d l1 l2 :
  indexedEntries d (l1 ++ l2) = indexedEntries d l1 ++ indexedEntries d l2.
Proof. unfold indexedEntries. by rewrite List.filter_app, map_app. Qed.

Lemma indexScans_lookup nodeAddr l st d n :
  indexLookup (scansPerDev (fold_left (indexScan nodeAddr) l st)) d n =
  if decide (nodeAddr = n)
  then match indexedEntries d l with
       | [] => indexLookup (scansPerDev st) d n
       | es => Some (default [] (indexLookup (scansPerDev st) d n) ++ es)
       end
  else indexLookup (scansPerDev st) d n.
Proof.
  revert st. induction l as [|s l IH]; intros st.
  - simpl. by destruct (decide _).
  - simpl fold_left. rewrite IH. clear IH.
    destruct (decide (nodeAddr = n)) as [<-|Hn].
    + rewrite indexScan_lookup.
      change (s :: l) with ([s] ++ l). rewrite indexedEntries_app.
      unfold indexedEntries at 2. simpl.
      destruct (decide (address s = d)) as [<-|Hd].
      * rewrite decide_True by done.
        rewrite (bool_decide_eq_true_2 _ eq_refl). simpl.
        destruct (indexedEntries (address s) l) as [|e es].
        -- done.
        -- simpl. by rewrite <- app_assoc.
      * rewrite decide_False by tauto.
        rewrite (bool_decide_eq_false_2 _ Hd). done.
    + rewrite indexScan_lookup. by rewrite decide_False by tauto.
Qed.

Lemma getScans_lookup (m : gmap string (list Scan)) d n :
  indexLookup
    (scansPerDev
       (map_fold (λ nodeAddr l st, fold_left (indexScan nodeAddr) l st)
                 (mkScanIndex ∅ 127 (-127)) m)) d n
  = m !! n ≫= λ l, nonEmpty (indexedEntries d l).
Proof.
  revert d n.
  apply (map_fold_weak_ind (λ st (m : gmap string (list Scan)),
    ∀ d n, indexLookup (scansPerDev st) d n
           = m !! n ≫= λ l, nonEmpty (indexedEntries d l))).
  - intros d n. unfold indexLookup. simpl. by rewrite !lookup_empty.
  - intros k l m' r Hk IH d n. rewrite indexScans_lookup.
    destruct (decide (k = n)) as [<-|Hn].
    + rewrite lookup_insert_eq, IH, Hk. simpl.
      by destruct (indexedEntries d l).
    + rewrite lookup_insert_ne by done. apply IH.
Qed.

Lemma indexScan_inhabited nodeAddr st s :
  (∀ d perNode, scansPerDev st !! d = Some perNode → perNode ≠ ∅) →
  ∀ d perNode, scansPerDev (indexScan nodeAddr st s) !! d = Some perNode →
               perNode ≠ ∅.
Proof.
  intros Hst d perNode. unfold indexScan. cbn [scansPerDev].
  destruct (decide (address s = d)) as [<-|Hd].
  - rewrite lookup_insert_eq. intros [= <-].
    destruct (_ !! nodeAddr); apply insert_non_empty.
  - rewrite lookup_insert_ne, lookup_ensureKey, decide_False by done.
    apply Hst.
Qed.

Lemma getScans_inhabited (data : Data) d perNode :
  scansPerDev (getScansPerDevicePerNode data) !! d = Some perNode →
  perNode ≠ ∅.
Proof.
  revert d perNode. unfold getScansPerDevicePerNode.
  apply (map_fold_weak_ind (λ st (m : gmap string (list Scan)),
    ∀ d perNode, scansPerDev st !! d = Some perNode → perNode ≠ ∅)).
  - intros d perNode. simpl. by rewrite lookup_empty.
  - intros k l m r _ IH. clear m. revert r IH.
    induction l as [|s l IHl]; intros r IH; simpl; [done|].
    apply IHl. by apply indexScan_inhabited.
Qed.

Lemma indexedEntries_nil_iff d l :
  indexedEntries d l ≠ [] ↔ ∃ s, s ∈ l ∧ address s = d.
Proof.
  unfold indexedEntries. induction l as [|x l IH]; simpl.
  - split; [done|]. intros (s & Hs & _). by apply elem_of_nil in Hs.
  - destruct (decide (address x = d)) as [Hx|Hx].
    + rewrite (bool_decide_eq_true_2 _ Hx). simpl. split; [|done].
      intros _. exists x. split; [apply elem_of_cons; by left|done].
    + rewrite (bool_decide_eq_false_2 _ Hx). rewrite IH. split.
      * intros (s & Hs & Hd). exists s. split; [apply elem_of_cons; by right|done].
      * intros (s & Hs & Hd). apply elem_of_cons in Hs as [->|Hs]; [done|].
        by exists s.
Qed.

Lemma getScans_index_lookup (data : Data) d n :
  indexLookup (scansPerDev (getScansPerDevicePerNode data)) d n
  = scans data !! n ≫= λ l, nonEmpty (indexedEntries d l).
Proof. apply getScans_lookup. Qed.

(** X1. The index groups the scans by device and node without losing,
    duplicating or reordering any: [scansPerDev[d][n]] is the list of the
    [{time, rssi}] entries of the scans of node [n] whose address is [d], in
    the order of the node's scan list, and the pair [d], [n] has no entry
    when node [n] has no scan of device [d]. *)
Theorem index_groups_scans_in_order (data : Data) (d n : string) :
  indexLookup (scansPerDev (getScansPerDevicePerNode data)) d n
  = scans data !! n ≫= λ l, nonEmpty (indexedEntries d l).
Proof. apply getScans_index_lookup. Qed.

(** X2. The devices of the index are exactly the addresses that occur in
    some scan; no device is stored with an empty node dict and no (device,
    node) pair with an empty list. *)
Theorem index_devices_are_scanned_addresses (data : Data) (d : string) :
  let spd := scansPerDev (getScansPerDevicePerNode data) in
  (is_Some (spd !! d) ↔ ∃ s, scanOf data s ∧ address s = d)
  ∧ (∀ perNode, spd !! d = Some perNode → perNode ≠ ∅)
  ∧ (∀ n es, indexLookup spd d n = Some es → es ≠ []).
Proof.
  intros spd. split_and!.
  - split.
    + intros [perNode Hd].
      pose proof (getScans_inhabited data d perNode Hd) as Hne.
      apply map_choose in Hne as (n & es & Hn).
      pose proof (getScans_index_lookup data d n) as Hlook.
      unfold indexLookup in Hlook. fold spd in Hlook. rewrite Hd in Hlook.
      simpl in Hlook. rewrite Hn in Hlook.
      destruct (scans data !! n) as [l|] eqn:Hl; [|done]. simpl in Hlook.
      assert (indexedEntries d l ≠ []) as Hnil.
      { intros E. by rewrite E in Hlook. }
      apply indexedEntries_nil_iff in Hnil as (s & Hs & Haddr).
      exists s. split; [by exists n, l|done].
    + intros (s & (n & l & Hl & Hs) & Haddr).
      pose proof (getScans_index_lookup data d n) as Hlook.
      rewrite Hl in Hlook. simpl in Hlook.
      assert (indexedEntries d l ≠ []) as Hnil
        by (apply indexedEntries_nil_iff; by exists s).
      unfold indexLookup in Hlook. fold spd in Hlook.
      destruct (spd !! d); [by eexists|].
      simpl in Hlook. by destruct (indexedEntries d l).
  - apply getScans_inhabited.
  - intros n es. unfold spd. rewrite getScans_index_lookup.
    destruct (scans data !! n) as [l|]; [|done]. simpl.
    destruct (indexedEntries d l); [done|]. by intros [= <-].
Qed.

Lemma indexScans_extremes nodeAddr l st :
  let st' := fold_left (indexScan nodeAddr) l st in
  (minRssi st' = minRssi st ∨ ∃ s, s ∈ l ∧ rssi s = minRssi st')
  ∧ (maxRssi st' = maxRssi st ∨ ∃ s, s ∈ l ∧ rssi s = maxRssi st').
Proof.
  revert st. induction l as [|x l IH]; intros st; simpl; [by split; left|].
  destruct (IH (indexScan nodeAddr st x)) as [Hmin Hmax].
  rewrite indexScan_min in Hmin. rewrite indexScan_max in Hmax.
  split.
  - destruct Hmin as [Hmin|(s & Hs & Hmin)].
    + destruct (Z.min_spec (minRssi st) (rssi x)) as [[_ E]|[_ E]];
        rewrite E in Hmin; [by left|].
      right. exists x. split; [apply elem_of_cons; by left|done].
    + right. exists s. split; [apply elem_of_cons; by right|done].
  - destruct Hmax as [Hmax|(s & Hs & Hmax)].
    + destruct (Z.max_spec (maxRssi st) (rssi x)) as [[_ E]|[_ E]];
        rewrite E in Hmax; [|by left].
      right. exists x. split; [apply elem_of_cons; by left|done].
    + right. exists s. split; [apply elem_of_cons; by right|done].
Qed.

Lemma getScans_extremes (data : Data) :
  let index := getScansPerDevicePerNode data in
  (minRssi index ≤ 127)%Z ∧ (-127 ≤ maxRssi index)%Z
  ∧ (minRssi index = 127%Z ∨ ∃ s, scanOf data s ∧ rssi s = minRssi index)
  ∧ (maxRssi index = (-127)%Z ∨ ∃ s, scanOf data s ∧ rssi s = maxRssi index).
Proof.
  unfold getScansPerDevicePerNode, scanOf. cbv zeta.
  apply (map_fold_weak_ind (λ st (m : gmap string (list Scan)),
    (minRssi st ≤ 127)%Z ∧ (-127 ≤ maxRssi st)%Z
    ∧ (minRssi st = 127%Z
       ∨ ∃ s, (∃ node l, m !! node = Some l ∧ s ∈ l) ∧ rssi s = minRssi st)
    ∧ (maxRssi st = (-127)%Z
       ∨ ∃ s, (∃ node l, m !! node = Some l ∧ s ∈ l) ∧ rssi s = maxRssi st))).
  - simpl. split_and!; [lia|lia|by left|by left].
  - intros k l m r Hk (IHlo & IHhi & IHmin & IHmax).
    destruct (indexScans_extremes k l r) as [Hmin Hmax].
    destruct (indexScans_bounds k l r) as (Hle & Hge & _). cbv zeta in *.
    assert (∀ s, (∃ node l', m !! node = Some l' ∧ s ∈ l') →
                 ∃ node l', <[k := l]> m !! node = Some l' ∧ s ∈ l') as Hsub.
    { intros s (node & l' & Hl' & Hs). exists node, l'. split; [|done].
      rewrite lookup_insert_ne; [done|]. intros ->. congruence. }
    split_and!; [lia|lia| |].
    + destruct Hmin as [->|(s & Hs & Hmin)].
      * destruct IHmin as [?|(s & Hs & ?)]; [by left|].
        right. exists s. split; [by apply Hsub|done].
      * right. exists s. split; [|done]. exists k, l. by rewrite lookup_insert_eq.
    + destruct Hmax as [->|(s & Hs & Hmax)].
      * destruct IHmax as [?|(s & Hs & ?)]; [by left|].
        right. exists s. split; [by apply Hsub|done].
      * right. exists s. split; [|done]. exists k, l. by rewrite lookup_insert_eq.
Qed.

(** X3. [minRssi] never exceeds its initial value 127 and [maxRssi] is never
    below -127.  When some scan has an rssi of at most 127, [minRssi] is the
    rssi of a scan of the dataset, and when some scan has an rssi of at least
    -127, [maxRssi] is the rssi of a scan of the dataset: for rssi values in
    the physical range the two are the true extremes.  A dataset whose rssi
    values all exceed 127 keeps [minRssi = 127]. *)
Theorem rssi_extremes_attained (data : Data) :
  let index := getScansPerDevicePerNode data in
  (minRssi index ≤ 127)%Z ∧ (-127 ≤ maxRssi index)%Z
  ∧ ((∃ s, scanOf data s ∧ (rssi s ≤ 127)%Z) →
     ∃ s, scanOf data s ∧ rssi s = minRssi index)
  ∧ ((∃ s, scanOf data s ∧ (-127 ≤ rssi s)%Z) →
     ∃ s, scanOf data s ∧ rssi s = maxRssi index)
  ∧ ((∀ s, scanOf data s → (127 < rssi s)%Z) → minRssi index = 127%Z).
Proof.
  intros index.
  destruct (getScans_extremes data) as (Hlo & Hhi & Hmin & Hmax).
  fold index in Hlo, Hhi, Hmin, Hmax.
  destruct (getScans_bounds (scans data)) as [Hb _].
  fold (getScansPerDevicePerNode data) in Hb. fold index in Hb.
  assert (∀ s, scanOf data s → (minRssi index ≤ rssi s ≤ maxRssi index)%Z) as Hbound.
  { intros s (node & l & Hl & Hs). by apply (Hb node l). }
  split_and!; [done|done| | |].
  - intros (s & Hs & Hle). destruct Hmin as [E|?]; [|done].
    exists s. split; [done|]. specialize (Hbound s Hs). lia.
  - intros (s & Hs & Hle). destruct Hmax as [E|?]; [|done].
    exists s. split; [done|]. specialize (Hbound s Hs). lia.
  - intros Hall. destruct Hmin as [?|(s & Hs & E)]; [done|].
    specialize (Hall s Hs). lia.
Qed.

(** ** The aggregates *)

Lemma freqSeq_length startTimes windowSize node scans :
  length (freqSeq startTimes windowSize node scans) = length startTimes - 1.
Proof. unfold freqSeq. by rewrite length_map, length_seq. Qed.

Lemma aggregates_keys_Ok (data : Data)
    (windowSize stepSize : Z) (fr : Frequency) (ar : AverageRssi) :
  getFrequencyPerDevicePerNode data windowSize stepSize = Ok fr →
  getAverageRssiPerDevicePerNode data windowSize stepSize = Ok ar →
  let spd := scansPerDev (getScansPerDevicePerNode data) in
  dom (numScansPerDev fr) = dom spd
  ∧ dom (avgRssiPerDev ar) = dom spd
  ∧ ∀ dev nodes, spd !! dev = Some nodes →
      ∃ freqNodes avgNodes,
        numScansPerDev fr !! dev = Some freqNodes
        ∧ avgRssiPerDev ar !! dev = Some avgNodes
        ∧ dom avgNodes = dom nodes
        ∧ (∀ n l, avgNodes !! n = Some l → length l = length (avg_startTimes ar))
        ∧ dom freqNodes = (if decide (length (freq_startTimes fr) ≤ 1)
                           then ∅ else dom nodes)
        ∧ (∀ n l, freqNodes !! n = Some l →
                  length l = length (freq_startTimes fr) - 1).
Proof.
  intros Hf Ha spd.
  apply getFrequency_Ok_inv in Hf as [_ Hfr].
  apply getAverageRssi_Ok_inv in Ha as [_ Har].
  fold spd in Hfr, Har. rewrite Hfr, Har.
  split; [apply dom_fmap_L|]. split; [apply dom_fmap_L|].
  intros dev nodes Hdev.
  exists (freqDev (freq_startTimes fr) windowSize nodes ∅),
    (avgDev (avg_startTimes ar) windowSize nodes).
  split; [by rewrite lookup_fmap, Hdev|]. split; [by rewrite lookup_fmap, Hdev|].
  rewrite avgDev_spec. split; [apply dom_fmap_L|]. split.
  { intros n l. rewrite lookup_fmap. destruct (nodes !! n); [|done].
    intros [= <-]. apply avgRssiSeq_length. }
  split.
  - apply set_eq. intros n. rewrite elem_of_dom, freqDev_lookup.
    destruct (decide _).
    + split; [by intros []|]. by rewrite elem_of_empty.
    + by rewrite fmap_is_Some, elem_of_dom.
  - intros n l. rewrite freqDev_lookup. destruct (decide _); [done|].
    destruct (nodes !! n); [|done]. intros [= <-]. apply freqSeq_length.
Qed.

(** X5. The frequency and the average-RSSI output have exactly the devices
    of the scan index.  Under a device the average-RSSI output has exactly
    the nodes of the index, each with one value per bucket; the frequency
    output has the same nodes, each with one value fewer than there are
    buckets, when there are at least two buckets, and no node otherwise. *)
Theorem aggregates_have_the_keys_of_the_index (data : Data)
    (windowSize stepSize : Z) :
  stepSize ≠ 0%Z →
  ∃ fr ar,
    getFrequencyPerDevicePerNode data windowSize stepSize = Ok fr
    ∧ getAverageRssiPerDevicePerNode data windowSize stepSize = Ok ar
    ∧ dom (numScansPerDev fr) = dom (scansPerDev (getScansPerDevicePerNode data))
    ∧ dom (avgRssiPerDev ar) = dom (scansPerDev (getScansPerDevicePerNode data))
    ∧ ∀ dev nodes,
        scansPerDev (getScansPerDevicePerNode data) !! dev = Some nodes →
        ∃ freqNodes avgNodes,
          numScansPerDev fr !! dev = Some freqNodes
          ∧ avgRssiPerDev ar !! dev = Some avgNodes
          ∧ dom avgNodes = dom nodes
          ∧ (∀ n l, avgNodes !! n = Some l → length l = length (avg_startTimes ar))
          ∧ dom freqNodes = (if decide (length (freq_startTimes fr) ≤ 1)
                             then ∅ else dom nodes)
          ∧ (∀ n l, freqNodes !! n = Some l →
                    length l = length (freq_startTimes fr) - 1).
Proof.
  intros Hstep.
  destruct (bucketStarts_Ok data windowSize stepSize Hstep) as [startTimes Hb].
  pose proof (getFrequency_spec _ _ _ _ Hb) as Hf.
  pose proof (getAverageRssi_spec _ _ _ _ Hb) as Ha.
  eexists _, _. split; [exact Hf|]. split; [exact Ha|].
  exact (aggregates_keys_Ok _ _ _ _ _ Hf Ha).
Qed.

Lemma empty_bucket_frequency_Ok (data : Data) (windowSize stepSize : Z)
    (fr : Frequency) (dev node : string) (nodes : gmap string (list Entry))
    (scans : list Entry) (k : nat) :
  getFrequencyPerDevicePerNode data windowSize stepSize = Ok fr →
  scansPerDev (getScansPerDevicePerNode data) !! dev = Some nodes →
  nodes !! node = Some scans →
  S k < length (freq_startTimes fr) →
  scansInBucket (freq_startTimes fr) windowSize (S k) scans = [] →
  ∃ counts,
    seqLookup (numScansPerDev fr) dev node = Some counts
    ∧ counts !! k = Some 0%float.
Proof.
  intros Hf Hdev Hnode Hk Hempty.
  apply getFrequency_Ok_inv in Hf as [_ Hfr].
  exists (freqSeq (freq_startTimes fr) windowSize node scans). split.
  - unfold seqLookup. rewrite Hfr, lookup_fmap, Hdev. simpl.
    rewrite freqDev_lookup, decide_False, Hnode by lia. done.
  - unfold freqSeq. rewrite list_lookup_fmap, lookup_seq_lt by lia. simpl.
    unfold freqSpec. rewrite Hempty. simpl. by destruct (bool_decide _).
Qed.

(** X6. A bucket in which a (device, node) pair has no scan counts zero: the
    frequency value of that bucket is exactly [0.0], also for the nodes whose
    counts are divided by [6.0]. *)
Theorem empty_bucket_has_zero_frequency (data : Data) (windowSize stepSize : Z)
    (dev node : string) (nodes : gmap string (list Entry)) (scans : list Entry) :
  stepSize ≠ 0%Z →
  scansPerDev (getScansPerDevicePerNode data) !! dev = Some nodes →
  nodes !! node = Some scans →
  ∃ fr,
    getFrequencyPerDevicePerNode data windowSize stepSize = Ok fr
    ∧ ∀ k, S k < length (freq_startTimes fr) →
        scansInBucket (freq_startTimes fr) windowSize (S k) scans = [] →
        ∃ counts,
          seqLookup (numScansPerDev fr) dev node = Some counts
          ∧ counts !! k = Some 0%float.
Proof.
  intros Hstep Hdev Hnode.
  destruct (bucketStarts_Ok data windowSize stepSize Hstep) as [startTimes Hb].
  pose proof (getFrequency_spec _ _ _ _ Hb) as Hf.
  eexists. split; [exact Hf|]. intros k.
  exact (empty_bucket_frequency_Ok _ _ _ _ _ _ _ _ k Hf Hdev Hnode).
Qed.

Lemma average_rssi_lookup_Ok (data : Data) (windowSize stepSize : Z)
    (ar : AverageRssi) (dev node : string) :
  getAverageRssiPerDevicePerNode data windowSize stepSize = Ok ar →
  seqLookup (avgRssiPerDev ar) dev node
  = avgRssiSeq (avg_startTimes ar) windowSize
      <$> (scans data !! node ≫= λ l, nonEmpty (indexedEntries dev l)).
Proof.
  intros Ha. apply getAverageRssi_Ok_inv in Ha as [_ Har].
  rewrite <- getScans_index_lookup. unfold seqLookup, indexLookup.
  rewrite Har, lookup_fmap.
  destruct (scansPerDev (getScansPerDevicePerNode data) !! dev) as [nodes|];
    [|done].
  simpl. by rewrite avgDev_spec, lookup_fmap.
Qed.

(** X7. End to end, from the raw dataset: the average-RSSI sequence of
    device [dev] at node [node] is computed from the scans of [node] whose
    address is [dev], and from nothing else; a pair for which the node has no
    such scan has no sequence. *)
Theorem average_rssi_from_raw_scans (data : Data) (windowSize stepSize : Z) :
  stepSize ≠ 0%Z →
  ∃ ar,
    getAverageRssiPerDevicePerNode data windowSize stepSize = Ok ar
    ∧ ∀ dev node,
        seqLookup (avgRssiPerDev ar) dev node
        = avgRssiSeq (avg_startTimes ar) windowSize
            <$> (scans data !! node ≫= λ l, nonEmpty (indexedEntries dev l)).
Proof.
  intros Hstep.
  destruct (bucketStarts_Ok data windowSize stepSize Hstep) as [startTimes Hb].
  pose proof (getAverageRssi_spec _ _ _ _ Hb) as Ha.
  eexists. split; [exact Ha|]. intros dev node.
  exact (average_rssi_lookup_Ok _ _ _ _ dev node Ha).
Qed.

Lemma frequency_lookup_Ok (data : Data) (windowSize stepSize : Z)
    (fr : Frequency) (dev node : string) :
  getFrequencyPerDevicePerNode data windowSize stepSize = Ok fr →
  seqLookup (numScansPerDev fr) dev node
  = if decide (length (freq_startTimes fr) ≤ 1) then None
    else freqSeq (freq_startTimes fr) windowSize node
           <$> (scans data !! node ≫= λ l, nonEmpty (indexedEntries dev l)).
Proof.
  intros Hf. apply getFrequency_Ok_inv in Hf as [_ Hfr].
  rewrite <- getScans_index_lookup. unfold seqLookup, indexLookup.
  rewrite Hfr, lookup_fmap.
  destruct (scansPerDev (getScansPerDevicePerNode data) !! dev) as [nodes|].
  - simpl. apply freqDev_lookup.
  - simpl. by destruct (decide _).
Qed.

(** X8. End to end, from the raw dataset: with at least two buckets the
    frequency sequence of device [dev] at node [node] is computed from the
    scans of [node] whose address is [dev]; with fewer buckets, or when the
    node has no such scan, the pair has no sequence. *)
Theorem frequency_from_raw_scans (data : Data) (windowSize stepSize : Z) :
  stepSize ≠ 0%Z →
  ∃ fr,
    getFrequencyPerDevicePerNode data windowSize stepSize = Ok fr
    ∧ ∀ dev node,
        seqLookup (numScansPerDev fr) dev node
        = if decide (length (freq_startTimes fr) ≤ 1) then None
          else freqSeq (freq_startTimes fr) windowSize node
                 <$> (scans data !! node ≫= λ l, nonEmpty (indexedEntries dev l)).
Proof.
  intros Hstep.
  destruct (bucketStarts_Ok data windowSize stepSize Hstep) as [startTimes Hb].
  pose proof (getFrequency_spec _ _ _ _ Hb) as Hf.
  eexists. split; [exact Hf|]. intros dev node.
  exact (frequency_lookup_Ok _ _ _ _ dev node Hf).
Qed.

(** ** The localizer *)

Lemma index_node_is_scanning_node (data : Data) dev nodes n :
  scansPerDev (getScansPerDevicePerNode data) !! dev = Some nodes →
  is_Some (nodes !! n) → is_Some (scans data !! n).
Proof.
  intros Hdev [es Hn].
  pose proof (getScans_index_lookup data dev n) as Hlook.
  unfold indexLookup in Hlook. rewrite Hdev in Hlook. simpl in Hlook.
  rewrite Hn in Hlook. destruct (scans data !! n); [by eexists|done].
Qed.

(** X9. For a non-zero [stepSize] and rssi values in the range
    [-127..127], [getPathPerDevice] can only fail with a [KeyError] that
    names a scanning node of the dataset which has no entry in
    [nodeLocations]; it raises no [IndexError] and no other [KeyError].
    When it returns, the result has a path for exactly the devices of the
    scan index, and both coordinate lists of every path have one value per
    bucket. *)
Theorem path_result_or_missing_location (data : Data) (windowSize stepSize : Z)
    (nodeLocations : gmap string Location) :
  stepSize ≠ 0%Z →
  rssiInRange data →
  ∃ startTimes,
    bucketStarts data windowSize stepSize = Ok startTimes
    ∧ match getPathPerDevice data windowSize stepSize nodeLocations with
      | Ok pr =>
          path_startTimes pr = startTimes
          ∧ dom (pathPerDevice pr)
            = dom (scansPerDev (getScansPerDevicePerNode data))
          ∧ ∀ dev path, pathPerDevice pr !! dev = Some path →
              length (path_x path) = length startTimes
              ∧ length (path_y path) = length startTimes
      | Raise e =>
          ∃ n, e = KeyError n ∧ nodeLocations !! n = None
               ∧ is_Some (scans data !! n)
      end.
Proof.
  intros Hstep _.
  destruct (bucketStarts_Ok data windowSize stepSize Hstep) as [startTimes Hb].
  exists startTimes. split; [done|].
  pose proof (getPathPerDevice_result data windowSize stepSize nodeLocations
    startTimes Hb) as Hpath.
  destruct (getPathPerDevice _ _ _ _) as [pr|e].
  - destruct Hpath as [Hst Hpath]. split; [done|]. split.
    + apply set_eq. intros dev. rewrite !elem_of_dom. specialize (Hpath dev).
      destruct (scansPerDev (getScansPerDevicePerNode data) !! dev) as [nodes|].
      * destruct Hpath as [-> _]. split; by eexists.
      * rewrite Hpath. split; by intros [].
    + intros dev path Hp. specialize (Hpath dev).
      destruct (scansPerDev (getScansPerDevicePerNode data) !! dev) as [nodes|].
      * destruct Hpath as [Hp' _]. rewrite Hp' in Hp. injection Hp as <-.
        cbn [path_x path_y]. by rewrite !positionSeq_length.
      * congruence.
  - destruct Hpath as (dev & nodes & i & n & Hdev & _ & _ & -> & Hn & Hloc).
    exists n. split_and!; [done..|].
    apply freqDev_dom in Hn. by apply (index_node_is_scanning_node data dev nodes).
Qed.

Lemma weightSum_zero avgPerNode i (m : gmap string (list float)) :
  (∀ n, is_Some (m !! n) → weightSpec avgPerNode i n = 0%float) →
  weightSumSpec avgPerNode i m = 0%float.
Proof.
  unfold weightSumSpec.
  apply (map_fold_weak_ind (λ r (m : gmap string (list float)),
    (∀ n, is_Some (m !! n) → weightSpec avgPerNode i n = 0%float) →
    r = 0%float)).
  - done.
  - intros k x m' r Hk IH Hall. rewrite IH, Hall.
    + done.
    + by rewrite lookup_insert_eq.
    + intros n Hn. apply Hall. rewrite lookup_insert_is_Some.
      destruct (decide (k = n)); auto.
Qed.

(** X10. A bucket in which no node has a scan of the device gives the device
    no position: whenever [getPathPerDevice] returns, both coordinates of
    that bucket are [NaN]; and for rssi values in the range [-127..127] it
    can only fail to return by the [KeyError] of a node without location. *)
Theorem unseen_bucket_is_nan (data : Data) (windowSize stepSize : Z)
    (nodeLocations : gmap string Location) (startTimes : list Z)
    (dev : string) (nodes : gmap string (list Entry)) (i : nat) :
  bucketStarts data windowSize stepSize = Ok startTimes →
  scansPerDev (getScansPerDevicePerNode data) !! dev = Some nodes →
  i < length startTimes →
  (∀ n scans, nodes !! n = Some scans →
              scansInBucket startTimes windowSize i scans = []) →
  match getPathPerDevice data windowSize stepSize nodeLocations with
  | Ok pr =>
      ∃ path, pathPerDevice pr !! dev = Some path
              ∧ path_x path !! i = Some nan ∧ path_y path !! i = Some nan
  | Raise e =>
      rssiInRange data → ∃ n, e = KeyError n ∧ nodeLocations !! n = None
  end.
Proof.
  intros Hb Hdev Hi Hunseen.
  pose proof (getPathPerDevice_result data windowSize stepSize nodeLocations
    startTimes Hb) as Hpath.
  destruct (getPathPerDevice _ _ _ _) as [pr|e].
  - destruct Hpath as [_ Hpath]. specialize (Hpath dev). rewrite Hdev in Hpath.
    destruct Hpath as [Hp _]. eexists. split; [exact Hp|].
    cbn [path_x path_y]. rewrite !positionSeq_lookup by done.
    unfold positionSpec. rewrite weightSum_zero; [done|].
    intros n Hn. apply freqDev_dom in Hn as [scans Hscans].
    unfold weightSpec. rewrite avgDev_spec, lookup_fmap, Hscans. simpl.
    unfold avgRssiSeq.
    rewrite (list_lookup_total_correct _ i
               (avgRssiSpec startTimes windowSize scans i)).
    + unfold avgRssiSpec. by rewrite (Hunseen n scans Hscans).
    + by rewrite list_lookup_fmap, lookup_seq_lt.
  - intros _. destruct Hpath as (dev' & nodes' & i' & n & _ & _ & _ & -> & _ & Hloc).
    by exists n.
Qed.

(** ** The timestamp regrouper *)

(** X11. Regrouping several datasets at once merges them group by group: the
    readings of every group for [data1 ++ data2] are the readings that
    [data1] alone gives, followed by those that [data2] alone gives. *)
Theorem regrouping_merges_datasets (strRound1 : Q → string)
    (kwStart kwEnd : option Q) (data1 data2 : list Data) (k node device : string) :
  readingsAt (getTimedMeasurements strRound1 kwStart kwEnd (data1 ++ data2))
    k node device
  = readingsAt (getTimedMeasurements strRound1 kwStart kwEnd data1) k node device
    ++ readingsAt (getTimedMeasurements strRound1 kwStart kwEnd data2) k node device.
Proof.
  rewrite !getTimedMeasurements_readings. unfold expectedReadings.
  by rewrite map_app, concat_app.
Qed.

Section TimedOrder.
Variable strRound1 : Q → string.
Variables (kwStart kwEnd : option Q).
Variable S : Scan → Prop.

Lemma timedEntry_ordered node output e :
  (accepted kwStart kwEnd e = true → S e) →
  timeStampsFrom S (tm_startTimestamp output) (tm_endTimestamp output) →
  let output' := timedEntry strRound1 kwStart kwEnd node output e in
  timeStampsFrom S (tm_startTimestamp output') (tm_endTimestamp output').
Proof.
  intros HS (Hle & Hlo & Hhi). cbv zeta.
  destruct (accepted kwStart kwEnd e) eqn:Hacc; last first.
  { by rewrite timedEntry_rejected. }
  specialize (HS eq_refl).
  unfold timedEntry, accepted in *. apply andb_true_iff in Hacc as [Hs He].
  apply negb_true_iff in Hs, He. rewrite Hs, He. clear Hs He.
  cbn [tm_startTimestamp tm_endTimestamp].
  destruct (Qltb (time e) (tm_startTimestamp output)
            || Qeq_bool (tm_startTimestamp output) (-1)) eqn:Es;
    destruct (Qltb (tm_endTimestamp output) (time e)
              || Qeq_bool (tm_endTimestamp output) (-1)) eqn:Ee.
  - split; [apply Qle_refl|]. split; right; by exists e.
  - apply orb_false_iff in Ee as [Ee _]. split; [|split; [right; by exists e|done]].
    apply Qnot_lt_le. rewrite <- Qltb_lt. congruence.
  - apply orb_false_iff in Es as [Es _]. split; [|split; [done|right; by exists e]].
    apply Qnot_lt_le. rewrite <- Qltb_lt. congruence.
  - done.
Qed.

Lemma timedEntries_ordered node l output :
  (∀ e, e ∈ l → accepted kwStart kwEnd e = true → S e) →
  timeStampsFrom S (tm_startTimestamp output) (tm_endTimestamp output) →
  let output' := fold_left (timedEntry strRound1 kwStart kwEnd node) l output in
  timeStampsFrom S (tm_startTimestamp output') (tm_endTimestamp output').
Proof.
  revert output. induction l as [|e l IH]; intros output HS Hout; simpl; [done|].
  apply IH.
  - intros x Hx. apply HS. apply elem_of_cons. by right.
  - apply timedEntry_ordered; [|done]. apply HS. apply elem_of_cons. by left.
Qed.

Lemma timedDataset_ordered output d :
  (∀ e, scanOf d e → accepted kwStart kwEnd e = true → S e) →
  timeStampsFrom S (tm_startTimestamp output) (tm_endTimestamp output) →
  let output' := timedDataset strRound1 kwStart kwEnd output d in
  timeStampsFrom S (tm_startTimestamp output') (tm_endTimestamp output').
Proof.
  intros HS Hout. unfold timedDataset, scanOf in *. cbv zeta. revert HS.
  apply (map_fold_weak_ind (λ r (m : gmap string (list Scan)),
    (∀ e, (∃ node l, m !! node = Some l ∧ e ∈ l) →
          accepted kwStart kwEnd e = true → S e) →
    timeStampsFrom S (tm_startTimestamp r) (tm_endTimestamp r))).
  - done.
  - intros node l m r Hnode IH Hm. apply timedEntries_ordered.
    + intros e He. apply Hm. exists node, l. by rewrite lookup_insert_eq.
    + apply IH. intros e (node' & l' & Hl' & He). apply Hm.
      exists node', l'. split; [|done].
      rewrite lookup_insert_ne; [done|]. intros ->. congruence.
Qed.

Lemma timedDatasets_ordered data output :
  (∀ d e, d ∈ data → scanOf d e → accepted kwStart kwEnd e = true → S e) →
  timeStampsFrom S (tm_startTimestamp output) (tm_endTimestamp output) →
  let output' := fold_left (timedDataset strRound1 kwStart kwEnd) data output in
  timeStampsFrom S (tm_startTimestamp output') (tm_endTimestamp output').
Proof.
  revert output. induction data as [|d data IH]; intros output HS Hout; simpl;
    [done|].
  apply IH.
  - intros d' e Hd'. apply HS. apply elem_of_cons. by right.
  - apply timedDataset_ordered; [|done]. intros e. apply HS.
    apply elem_of_cons. by left.
Qed.

Lemma timedEntries_rejected node l output :
  (∀ e, e ∈ l → accepted kwStart kwEnd e = false) →
  fold_left (timedEntry strRound1 kwStart kwEnd node) l output = output.
Proof.
  revert output. induction l as [|e l IH]; intros output Hrej; simpl; [done|].
  rewrite timedEntry_rejected by (apply Hrej, elem_of_cons; by left).
  apply IH. intros x Hx. apply Hrej, elem_of_cons. by right.
Qed.

Lemma timedDataset_rejected output d :
  (∀ e, scanOf d e → accepted kwStart kwEnd e = false) →
  timedDataset strRound1 kwStart kwEnd output d = output.
Proof.
  unfold timedDataset, scanOf.
  apply (map_fold_weak_ind (λ r (m : gmap string (list Scan)),
    (∀ e, (∃ node l, m !! node = Some l ∧ e ∈ l) →
          accepted kwStart kwEnd e = false) →
    r = output)).
  - done.
  - intros node l m r Hnode IH Hm. rewrite IH.
    + apply timedEntries_rejected. intros e He. apply Hm.
      exists node, l. by rewrite lookup_insert_eq.
    + intros e (node' & l' & Hl' & He). apply Hm.
      exists node', l'. split; [|done].
      rewrite lookup_insert_ne; [done|]. intros ->. congruence.
Qed.
End TimedOrder.

(** X12. For every collection of datasets and every filter, the returned
    [startTimestamp] is never after the returned [endTimestamp], and each of
    the two is either the sentinel [-1] or the time of a record that passed
    the filter; this holds also when record times collide with the
    sentinel. *)
Theorem timestamps_ordered_and_from_records (strRound1 : Q → string)
    (kwStart kwEnd : option Q) (data : list Data) :
  let output := getTimedMeasurements strRound1 kwStart kwEnd data in
  timeStampsFrom (acceptedRecord kwStart kwEnd data)
    (tm_startTimestamp output) (tm_endTimestamp output).
Proof.
  unfold getTimedMeasurements. cbv zeta. apply timedDatasets_ordered.
  - intros d e Hd He Hacc. by exists d.
  - split; [done|]. by split; left.
Qed.

(** X13. When no record passes the filter (in particular for no dataset, or
    for datasets without scans) the result is exactly the initial one: an
    empty [data] dict and both timestamps [-1]. *)
Theorem nothing_accepted_gives_empty_result (strRound1 : Q → string)
    (kwStart kwEnd : option Q) (data : list Data) :
  (∀ e, ¬ acceptedRecord kwStart kwEnd data e) →
  getTimedMeasurements strRound1 kwStart kwEnd data
  = mkMeasurements ∅ (-1) (-1).
Proof.
  unfold getTimedMeasurements. generalize (mkMeasurements ∅ (-1) (-1)).
  induction data as [|d data IH]; intros output Hnone; simpl; [done|].
  rewrite timedDataset_rejected.
  - apply IH. intros e (d' & Hd' & He). apply (Hnone e). exists d'.
    split; [apply elem_of_cons; by right|done].
  - intros e He. destruct (accepted kwStart kwEnd e) eqn:Hacc; [|done].
    destruct (Hnone e). exists d. split; [apply elem_of_cons; by left|done].
Qed.

(** ** The bucket sequence *)

Lemma range_len_neg start stop step (i : nat) :
  (step < 0)%Z →
  (i < Z.to_nat (range_len start stop step))%nat ↔ (stop < start + Z.of_nat i * step)%Z.
Proof.
  intros Hstep. unfold range_len.
  destruct (Z.ltb_spec 0 step); [lia|].
  destruct (Z.ltb_spec stop start).
  - pose proof (Z.div_pos (start - stop - 1) (- step) ltac:(lia) ltac:(lia)).
    split; intros Hi.
    + assert (Z.of_nat i <= (start - stop - 1) / (- step))%Z by lia.
      assert (Z.of_nat i * (- step) <= start - stop - 1)%Z; [|lia].
      etrans; [apply Z.mul_le_mono_nonneg_r; [lia|eassumption]|].
      rewrite Z.mul_comm. apply Z.mul_div_le. lia.
    + assert (Z.of_nat i <= (start - stop - 1) / (- step))%Z; [|lia].
      apply Z.div_le_lower_bound; lia.
  - split; [lia|]. intros. assert (Z.of_nat i * step <= 0)%Z by lia. lia.
Qed.

Lemma pyrange_length start stop step l :
  pyrange start stop step = Ok l →
  length l = Z.to_nat (range_len start stop step).
Proof.
  unfold pyrange. destruct (step =? 0)%Z; [done|].
  intros [= <-]. by rewrite length_map, length_seq.
Qed.

(** X14. For a positive [stepSize] every bucket window lies inside the
    truncated time range: bucket [i] starts at
    [int(startTimestamp) + i*stepSize], not before [int(startTimestamp)],
    and ends at or before [int(endTimestamp)].  The bucket starts increase
    strictly, and there are [(int(endTimestamp) - windowSize -
    int(startTimestamp)) // stepSize + 1] buckets when the first window fits
    and none otherwise. *)
Theorem bucket_windows_fit_the_range (data : Data) (windowSize stepSize : Z)
    (startTimes : list Z) :
  (0 < stepSize)%Z →
  bucketStarts data windowSize stepSize = Ok startTimes →
  (∀ (i : nat) s, startTimes !! i = Some s →
     s = (pyint (startTimestamp data) + Z.of_nat i * stepSize)%Z
     ∧ (pyint (startTimestamp data) ≤ s)%Z
     ∧ (s + windowSize ≤ pyint (endTimestamp data))%Z)
  ∧ (∀ (i j : nat) s s', startTimes !! i = Some s → startTimes !! j = Some s' →
       i < j → (s < s')%Z)
  ∧ Z.of_nat (length startTimes) =
      if decide (pyint (startTimestamp data)
                 ≤ pyint (endTimestamp data) - windowSize)%Z
      then ((pyint (endTimestamp data) - windowSize
             - pyint (startTimestamp data)) / stepSize + 1)%Z
      else 0%Z.
Proof.
  intros Hstep Hb.
  pose proof (bucketStarts_lookup _ _ _ _ Hstep Hb) as Hspec.
  assert (∀ (i : nat) s, startTimes !! i = Some s →
            s = (pyint (startTimestamp data) + Z.of_nat i * stepSize)%Z
            ∧ (s ≤ pyint (endTimestamp data) - windowSize)%Z) as Hat.
  { intros i s. rewrite (Hspec i). destruct (decide _); [|done].
    intros [= <-]. done. }
  split_and!.
  - intros i s Hs. destruct (Hat i s Hs) as [-> Hle]. split_and!; [done|nia|lia].
  - intros i j s s' Hs Hs' Hij.
    destruct (Hat i s Hs) as [-> _]. destruct (Hat j s' Hs') as [-> _]. nia.
  - rewrite (pyrange_length _ _ _ _ Hb). unfold range_len.
    destruct (Z.ltb_spec 0 stepSize); [|lia].
    destruct (decide _) as [Hfit|Hfit].
    + destruct (Z.ltb_spec (pyint (startTimestamp data))
                  (pyint (endTimestamp data) - windowSize + 1)); [|lia].
      replace (pyint (endTimestamp data) - windowSize + 1
               - pyint (startTimestamp data) - 1)%Z
        with (pyint (endTimestamp data) - windowSize
              - pyint (startTimestamp data))%Z by lia.
      pose proof (Z.div_pos (pyint (endTimestamp data) - windowSize
                             - pyint (startTimestamp data)) stepSize
                    ltac:(lia) ltac:(lia)).
      lia.
    + destruct (Z.ltb_spec (pyint (startTimestamp data))
                  (pyint (endTimestamp data) - windowSize + 1)); [lia|done].
Qed.

(** X15. A negative [stepSize] is not rejected: the bucket starts then
    descend from [int(startTimestamp)] in steps of [stepSize], for as long as
    they stay above [int(endTimestamp) - windowSize + 1].  In particular the
    sequence is non-empty exactly when
    [int(startTimestamp) > int(endTimestamp) - windowSize + 1], in which case
    the window of its first bucket, starting at [int(startTimestamp)], ends
    after [int(endTimestamp)]. *)
Theorem negative_step_gives_descending_buckets (data : Data)
    (windowSize stepSize : Z) :
  (stepSize < 0)%Z →
  ∃ startTimes,
    bucketStarts data windowSize stepSize = Ok startTimes
    ∧ (∀ i : nat,
         startTimes !! i =
           if decide (pyint (endTimestamp data) - windowSize + 1
                      < pyint (startTimestamp data) + Z.of_nat i * stepSize)%Z
           then Some (pyint (startTimestamp data) + Z.of_nat i * stepSize)%Z
           else None)
    ∧ (startTimes ≠ [] ↔
       (pyint (endTimestamp data) - windowSize + 1
        < pyint (startTimestamp data))%Z)
    ∧ (∀ s, startTimes !! 0 = Some s →
            (pyint (endTimestamp data) < s + windowSize)%Z).
Proof.
  intros Hstep.
  destruct (bucketStarts_Ok data windowSize stepSize) as [startTimes Hb]; [lia|].
  exists startTimes. split; [done|].
  assert (∀ i : nat,
         startTimes !! i =
           if decide (pyint (endTimestamp data) - windowSize + 1
                      < pyint (startTimestamp data) + Z.of_nat i * stepSize)%Z
           then Some (pyint (startTimestamp data) + Z.of_nat i * stepSize)%Z
           else None) as Hspec.
  { intros i. unfold bucketStarts, pyrange in Hb.
    destruct (Z.eqb_spec stepSize 0); [lia|]. injection Hb as <-.
    rewrite list_lookup_fmap.
    pose proof (range_len_neg (pyint (startTimestamp data))
      (pyint (endTimestamp data) - windowSize + 1) stepSize i Hstep) as Hlen.
    destruct (decide _) as [Hlt|Hge].
    - rewrite lookup_seq_lt by (by apply Hlen). done.
    - rewrite lookup_seq_ge; [done|]. apply Nat.nlt_ge. by rewrite Hlen. }
  split; [done|]. split.
  - specialize (Hspec 0%nat). destruct startTimes as [|s l].
    + destruct (decide _) as [Hlt|Hge]; [done|]. split; [done|]. lia.
    + destruct (decide _) as [Hlt|Hge]; [|done]. split; [lia|done].
  - intros s. rewrite (Hspec 0%nat). destruct (decide _); [|done].
    intros [= <-]. lia.
Qed.

(** X16. When [stepSize >= windowSize] the windows do not overlap: no scan
    time is counted in two different buckets. *)
Theorem wide_steps_count_a_scan_once (data : Data) (windowSize stepSize : Z)
    (startTimes : list Z) (i j : nat) (t : Q) :
  (0 < stepSize)%Z → (windowSize ≤ stepSize)%Z →
  bucketStarts data windowSize stepSize = Ok startTimes →
  i < length startTimes → j < length startTimes →
  inWindow startTimes i windowSize t = true →
  inWindow startTimes j windowSize t = true →
  i = j.
Proof.
  intros Hstep Hwide Hb Hi Hj Hti Htj.
  destruct (lookup_lt_is_Some_2 startTimes i Hi) as [si Hsi].
  destruct (lookup_lt_is_Some_2 startTimes j Hj) as [sj Hsj].
  apply (inWindow_iff _ _ _ _ _ Hsi) in Hti as [Hi1 Hi2].
  apply (inWindow_iff _ _ _ _ _ Hsj) in Htj as [Hj1 Hj2].
  pose proof (bucketStarts_lookup _ _ _ _ Hstep Hb) as Hspec.
  rewrite (Hspec i) in Hsi. rewrite (Hspec j) in Hsj.
  destruct (decide _); [|done]. destruct (decide _); [|done].
  injection Hsi as <-. injection Hsj as <-.
  pose proof (Qle_lt_trans _ _ _ Hi1 Hj2) as H1. rewrite <- Zlt_Qlt in H1.
  pose proof (Qle_lt_trans _ _ _ Hj1 Hi2) as H2. rewrite <- Zlt_Qlt in H2.
  nia.
Qed.

(** X17. When [stepSize <= windowSize] the windows leave no gap: every scan
    time from the start of the first bucket up to the end of the last window
    is counted in at least one bucket. *)
Theorem narrow_steps_miss_no_scan (data : Data) (windowSize stepSize : Z)
    (startTimes : list Z) (first last : Z) (t : Q) :
  (0 < stepSize)%Z → (stepSize ≤ windowSize)%Z →
  bucketStarts data windowSize stepSize = Ok startTimes →
  startTimes !! 0 = Some first →
  startTimes !! (length startTimes - 1) = Some last →
  (inject_Z first <= t)%Q → (t < inject_Z (last + windowSize))%Q →
  ∃ i, i < length startTimes ∧ inWindow startTimes i windowSize t = true.
Proof.
  intros Hstep Hnarrow Hb Hfirst Hlast Hlo Hhi.
  pose proof (bucketStarts_lookup _ _ _ _ Hstep Hb) as Hspec.
  set (s0 := pyint (startTimestamp data)) in *.
  set (bound := (pyint (endTimestamp data) - windowSize)%Z) in *.
  assert (first = s0) as ->.
  { rewrite (Hspec 0%nat) in Hfirst. destruct (decide _); [|done].
    injection Hfirst as <-. lia. }
  assert (0 < length startTimes) as Hlen
    by (destruct startTimes; [done|simpl; lia]).
  assert (last = (s0 + Z.of_nat (length startTimes - 1) * stepSize)%Z
          ∧ (last ≤ bound)%Z) as [Hlast_eq Hlast_le].
  { rewrite (Hspec _) in Hlast. destruct (decide _); [|done].
    by injection Hlast as <-. }
  set (f := Qfloor t).
  assert (inject_Z f <= t)%Q as Hf1 by apply Qfloor_le.
  assert (t < inject_Z (f + 1))%Q as Hf2 by apply Qlt_floor.
  assert (s0 ≤ f)%Z as Hs0f.
  { unfold f. rewrite <- (Qfloor_Z s0). by apply Qfloor_resp_le. }
  set (k := ((f - s0) / stepSize)%Z).
  assert (0 ≤ k)%Z as Hk0 by (apply Z.div_pos; lia).
  assert (k * stepSize ≤ f - s0 < (k + 1) * stepSize)%Z as [Hk1 Hk2].
  { unfold k. pose proof (Z.mul_div_le (f - s0) stepSize Hstep).
    pose proof (Z.mul_succ_div_gt (f - s0) stepSize Hstep). lia. }
  destruct (decide (Z.to_nat k < length startTimes)) as [Hin|Hout].
  - exists (Z.to_nat k). split; [done|].
    destruct (lookup_lt_is_Some_2 startTimes _ Hin) as [s Hs].
    apply (inWindow_iff _ _ _ _ _ Hs).
    rewrite (Hspec _) in Hs. destruct (decide _); [|done]. injection Hs as <-.
    rewrite Z2Nat.id by done. split.
    + eapply Qle_trans; [|exact Hf1]. rewrite <- Zle_Qle. lia.
    + eapply Qlt_le_trans; [exact Hf2|]. rewrite <- Zle_Qle. lia.
  - exists (length startTimes - 1). split; [lia|].
    apply (inWindow_iff _ _ _ _ _ Hlast). split; [|done].
    eapply Qle_trans; [|exact Hf1]. rewrite <- Zle_Qle. rewrite Hlast_eq.
    assert (Z.of_nat (length startTimes - 1) ≤ k)%Z by lia. nia.
Qed.

Lemma single_rssi_mean (z : Z) :
  (-127 ≤ z ≤ 127)%Z →
  ((0 + float_of_int z) / float_of_int 1)%float = float_of_int z.
Proof.
  intros Hz.
  assert (∃ n : nat, n < 255 ∧ z = (Z.of_nat n - 127)%Z) as (n & Hn & ->).
  { exists (Z.to_nat (z + 127)). lia. }
  clear Hz.
  do 255 (destruct n as [|n]; [vm_compute; reflexivity|]).
  lia.
Qed.

(** In the rssi range of the data model the conversion to a float yields a
    finite value: the case in which Python raises [OverflowError] does not
    arise there. *)
Lemma float_of_int_finite (z : Z) :
  (-127 ≤ z ≤ 127)%Z → is_finite (float_of_int z) = true.
Proof.
  intros Hz.
  assert (∃ n : nat, n < 255 ∧ z = (Z.of_nat n - 127)%Z) as (n & Hn & ->).
  { exists (Z.to_nat (z + 127)). lia. }
  clear Hz.
  do 255 (destruct n as [|n]; [vm_compute; reflexivity|]).
  lia.
Qed.

(** X18. A bucket that holds exactly one scan of a (device, node) pair, with
    an rssi in the physical range [-127..127], reports that scan's rssi as
    its average. *)
Theorem single_scan_bucket_reports_its_rssi (data : Data)
    (windowSize stepSize : Z) (dev node : string)
    (nodes : gmap string (list Entry)) (scans : list Entry) :
  stepSize ≠ 0%Z →
  scansPerDev (getScansPerDevicePerNode data) !! dev = Some nodes →
  nodes !! node = Some scans →
  ∃ ar avgs,
    getAverageRssiPerDevicePerNode data windowSize stepSize = Ok ar
    ∧ seqLookup (avgRssiPerDev ar) dev node = Some avgs
    ∧ ∀ i e, i < length (avg_startTimes ar) →
        scansInBucket (avg_startTimes ar) windowSize i scans = [e] →
        (-127 ≤ entry_rssi e ≤ 127)%Z →
        avgs !! i = Some (float_of_int (entry_rssi e)).
Proof.
  intros Hstep Hdev Hnode.
  destruct (bucketStarts_Ok data windowSize stepSize Hstep) as [startTimes Hb].
  rewrite (getAverageRssi_spec _ _ _ _ Hb).
  eexists _, (avgRssiSeq startTimes windowSize scans). split; [done|].
  cbn [avgRssiPerDev avg_startTimes]. split.
  - unfold seqLookup. rewrite lookup_fmap, Hdev. simpl.
    by rewrite avgDev_spec, lookup_fmap, Hnode.
  - intros i e Hi Hone Hrange. unfold avgRssiSeq.
    rewrite list_lookup_fmap, lookup_seq_lt by done. simpl. f_equal.
    unfold avgRssiSpec. rewrite Hone. unfold meanRssi. simpl.
    by apply single_rssi_mean.
Qed.

(** ** Instances of the further properties *)

Lemma aggregates_have_the_keys_of_the_index_witness :
  (20 ≠ 0)%Z ∧
  ∃ fr ar,
    getFrequencyPerDevicePerNode twoNodeData 20 20 = Ok fr
    ∧ getAverageRssiPerDevicePerNode twoNodeData 20 20 = Ok ar
    ∧ dom (numScansPerDev fr)
      = dom (scansPerDev (getScansPerDevicePerNode twoNodeData))
    ∧ dom (avgRssiPerDev ar)
      = dom (scansPerDev (getScansPerDevicePerNode twoNodeData))
    ∧ ∀ dev nodes,
        scansPerDev (getScansPerDevicePerNode twoNodeData) !! dev = Some nodes →
        ∃ freqNodes avgNodes,
          numScansPerDev fr !! dev = Some freqNodes
          ∧ avgRssiPerDev ar !! dev = Some avgNodes
          ∧ dom avgNodes = dom nodes
          ∧ (∀ n l, avgNodes !! n = Some l → length l = length (avg_startTimes ar))
          ∧ dom freqNodes = (if decide (length (freq_startTimes fr) ≤ 1)
                             then ∅ else dom nodes)
          ∧ (∀ n l, freqNodes !! n = Some l →
                    length l = length (freq_startTimes fr) - 1).
Proof.
  split; [lia|]. apply (aggregates_have_the_keys_of_the_index twoNodeData 20 20).
  lia.
Defined.

Lemma empty_bucket_has_zero_frequency_witness :
  ∃ fr,
    getFrequencyPerDevicePerNode twoNodeData 20 20 = Ok fr
    ∧ ∀ k, S k < length (freq_startTimes fr) →
        scansInBucket (freq_startTimes fr) 20 (S k) [mkEntry 11 (-80)] = [] →
        ∃ counts,
          seqLookup (numScansPerDev fr) "D" "B" = Some counts
          ∧ counts !! k = Some 0%float.
Proof.
  apply (empty_bucket_has_zero_frequency twoNodeData 20 20 "D" "B"
           {[ "A"%string := [mkEntry 10 (-60); mkEntry 25 (-70); mkEntry 26 (-50)];
              "B"%string := [mkEntry 11 (-80)] ]}).
  - lia.
  - by vm_compute.
  - by vm_compute.
Defined.

Lemma average_rssi_from_raw_scans_witness :
  (20 ≠ 0)%Z ∧
  ∃ ar,
    getAverageRssiPerDevicePerNode twoNodeData 20 20 = Ok ar
    ∧ ∀ dev node,
        seqLookup (avgRssiPerDev ar) dev node
        = avgRssiSeq (avg_startTimes ar) 20
            <$> (scans twoNodeData !! node ≫= λ l, nonEmpty (indexedEntries dev l)).
Proof.
  split; [lia|]. apply (average_rssi_from_raw_scans twoNodeData 20 20). lia.
Defined.

Lemma frequency_from_raw_scans_witness :
  (20 ≠ 0)%Z ∧
  ∃ fr,
    getFrequencyPerDevicePerNode twoNodeData 20 20 = Ok fr
    ∧ ∀ dev node,
        seqLookup (numScansPerDev fr) dev node
        = if decide (length (freq_startTimes fr) ≤ 1) then None
          else freqSeq (freq_startTimes fr) 20 node
                 <$> (scans twoNodeData !! node ≫= λ l, nonEmpty (indexedEntries dev l)).
Proof.
  split; [lia|]. apply (frequency_from_raw_scans twoNodeData 20 20). lia.
Defined.

Lemma twoNodeData_rssiInRange : rssiInRange twoNodeData.
Proof.
  intros s (node & l & Hl & Hs). unfold twoNodeData in Hl. cbn [scans] in Hl.
  apply lookup_insert_Some in Hl as [[_ <-]|[_ Hl]];
    [|apply lookup_singleton_Some in Hl as [_ <-]];
    repeat (apply elem_of_cons in Hs as [->|Hs]; [simpl; lia|]);
    by apply elem_of_nil in Hs.
Defined.

Lemma path_result_or_missing_location_witness :
  (20 ≠ 0)%Z ∧ rssiInRange twoNodeData ∧
  ∃ startTimes,
    bucketStarts twoNodeData 20 20 = Ok startTimes
    ∧ match getPathPerDevice twoNodeData 20 20 originA with
      | Ok pr =>
          path_startTimes pr = startTimes
          ∧ dom (pathPerDevice pr)
            = dom (scansPerDev (getScansPerDevicePerNode twoNodeData))
          ∧ ∀ dev path, pathPerDevice pr !! dev = Some path →
              length (path_x path) = length startTimes
              ∧ length (path_y path) = length startTimes
      | Raise e =>
          ∃ n, e = KeyError n ∧ originA !! n = None
               ∧ is_Some (scans twoNodeData !! n)
      end.
Proof.
  split; [lia|]. split; [exact twoNodeData_rssiInRange|].
  apply (path_result_or_missing_location twoNodeData 20 20 originA).
  - lia.
  - exact twoNodeData_rssiInRange.
Defined.

Lemma unseen_bucket_is_nan_witness :
  rssiInRange twoNodeData ∧
  match getPathPerDevice twoNodeData 20 20 locationsAB with
  | Ok pr =>
      ∃ path, pathPerDevice pr !! "E"%string = Some path
              ∧ path_x path !! 0 = Some nan ∧ path_y path !! 0 = Some nan
  | Raise e =>
      rssiInRange twoNodeData → ∃ n, e = KeyError n ∧ locationsAB !! n = None
  end.
Proof.
  split; [exact twoNodeData_rssiInRange|].
  apply (unseen_bucket_is_nan twoNodeData 20 20 locationsAB [0; 20; 40]%Z "E"
           {[ "B"%string := [mkEntry 30 (-40)] ]} 0).
  - by vm_compute.
  - by vm_compute.
  - simpl. lia.
  - intros n scans Hn. apply lookup_singleton_Some in Hn as [_ <-].
    by vm_compute.
Defined.

Lemma nothing_accepted_gives_empty_result_witness :
  getTimedMeasurements (λ _, "t"%string) (Some 5%Q) (Some 3%Q) [twoNodeData]
  = mkMeasurements ∅ (-1) (-1).
Proof.
  apply (nothing_accepted_gives_empty_result (λ _, "t"%string)
           (Some 5%Q) (Some 3%Q) [twoNodeData]).
  intros e (d & _ & _ & Hacc).
  apply accepted_iff in Hacc as [Hs He].
  pose proof (Qle_trans _ _ _ (Hs 5%Q eq_refl) (He 3%Q eq_refl)) as Hle.
  by vm_compute in Hle.
Defined.

Lemma bucket_windows_fit_the_range_witness :
  (0 < 20)%Z ∧ bucketStarts twoNodeData 20 20 = Ok [0; 20; 40]%Z ∧
  (∀ (i : nat) s, [0; 20; 40]%Z !! i = Some s →
     s = (pyint (startTimestamp twoNodeData) + Z.of_nat i * 20)%Z
     ∧ (pyint (startTimestamp twoNodeData) ≤ s)%Z
     ∧ (s + 20 ≤ pyint (endTimestamp twoNodeData))%Z)
  ∧ (∀ (i j : nat) s s', [0; 20; 40]%Z !! i = Some s → [0; 20; 40]%Z !! j = Some s' →
       i < j → (s < s')%Z)
  ∧ Z.of_nat (length [0; 20; 40]%Z) =
      if decide (pyint (startTimestamp twoNodeData)
                 ≤ pyint (endTimestamp twoNodeData) - 20)%Z
      then ((pyint (endTimestamp twoNodeData) - 20
             - pyint (startTimestamp twoNodeData)) / 20 + 1)%Z
      else 0%Z.
Proof.
  split; [lia|]. split; [by vm_compute|].
  apply (bucket_windows_fit_the_range twoNodeData 20 20 [0; 20; 40]%Z).
  - lia.
  - by vm_compute.
Defined.

Lemma negative_step_gives_descending_buckets_witness :
  (-20 < 0)%Z ∧
  ∃ startTimes,
    bucketStarts twoNodeData 80 (-20) = Ok startTimes
    ∧ (∀ i : nat,
         startTimes !! i =
           if decide (pyint (endTimestamp twoNodeData) - 80 + 1
                      < pyint (startTimestamp twoNodeData) + Z.of_nat i * (-20))%Z
           then Some (pyint (startTimestamp twoNodeData) + Z.of_nat i * (-20))%Z
           else None)
    ∧ (startTimes ≠ [] ↔
       (pyint (endTimestamp twoNodeData) - 80 + 1
        < pyint (startTimestamp twoNodeData))%Z)
    ∧ (∀ s, startTimes !! 0 = Some s →
            (pyint (endTimestamp twoNodeData) < s + 80)%Z).
Proof.
  split; [lia|].
  apply (negative_step_gives_descending_buckets twoNodeData 80 (-20)). lia.
Defined.

Lemma wide_steps_count_a_scan_once_witness :
  inWindow [0; 20; 40]%Z 1 20 25 = true ∧ 1 = 1.
Proof.
  split; [by vm_compute|].
  apply (wide_steps_count_a_scan_once twoNodeData 20 20 [0; 20; 40]%Z 1 1 25).
  - lia.
  - lia.
  - by vm_compute.
  - simpl. lia.
  - simpl. lia.
  - by vm_compute.
  - by vm_compute.
Defined.

Lemma narrow_steps_miss_no_scan_witness :
  ∃ i, i < length [0; 20; 40]%Z ∧ inWindow [0; 20; 40]%Z i 20 25 = true.
Proof.
  apply (narrow_steps_miss_no_scan twoNodeData 20 20 [0; 20; 40]%Z 0 40 25).
  - lia.
  - lia.
  - by vm_compute.
  - done.
  - done.
  - by vm_compute.
  - by vm_compute.
Defined.

Lemma single_scan_bucket_reports_its_rssi_witness :
  ∃ ar avgs,
    getAverageRssiPerDevicePerNode twoNodeData 20 20 = Ok ar
    ∧ seqLookup (avgRssiPerDev ar) "E" "B" = Some avgs
    ∧ ∀ i e, i < length (avg_startTimes ar) →
        scansInBucket (avg_startTimes ar) 20 i [mkEntry 30 (-40)] = [e] →
        (-127 ≤ entry_rssi e ≤ 127)%Z →
        avgs !! i = Some (float_of_int (entry_rssi e)).
Proof.
  apply (single_scan_bucket_reports_its_rssi twoNodeData 20 20 "E" "B"
           {[ "B"%string := [mkEntry 30 (-40)] ]}).
  - lia.
  - by vm_compute.
  - by vm_compute.
Defined.
